(** * Claims risk analyzer: the cleaning and scoring engine of [helpers.py]

    A shallow embedding of [handle_numeric_outliers],
    [detect_suspicious_duplicates], [category_amount_zscores],
    [isolation_forest_scores] and [flag_anomalies].

    Conventions of the embedding.
    - A pandas [DataFrame] is a record of its column labels and its rows in
      index order; a row is a finite map from column label to cell.
    - A float64 of a table is a rational ([Q]); NaN is the separate cell
      [CNaN] (or [None] in a float series).  Rounding error of float
      arithmetic is not represented; the statements below keep away from
      what holds of an exactly computed mean or standard deviation only
      (a mean within the range of its values, a standard deviation of 0
      for equal values).  The cells of a
      table hold finite numbers; the series the duplicate detector works on
      is modelled with the two infinities as well ([float64]), since the
      detector treats them differently from finite values.  An optional
      bound ([min_val], [max_val]) is [option Q], [None] standing for the
      infinite bound the code substitutes.
    - The three library routines the code calls but does not define are
      section variables: pandas' numeric parser, scikit-learn's fitted
      decision function and numpy's square root. *)

From Stdlib Require Import QArith Qround Qabs ZArith Ascii String Lia Lqa.
From stdpp Require Import gmap strings list sorting pretty.

Local Open Scope Q_scope.

(** ** Data model *)

Inductive cell :=
| CNum (q : Q)
| CNaN
| CText (s : string).

Abbreviation record := (gmap string cell).

Record DataFrame := mkDataFrame {
  columns : list string;
  rows : list record
}.

(** [row[column]]: every row of a frame has a cell for every column; a label
    without an entry reads as missing. *)
Definition cell_at (r : record) (column : string) : cell :=
  default CNaN (r !! column).

Definition notna (c : cell) : bool :=
  match c with CNaN => false | _ => true end.

Definition isna (c : cell) : bool := negb (notna c).

(** The float held by a cell of a numeric column, [None] for NaN. *)
Definition cell_float (c : cell) : option Q :=
  match c with CNum q => Some q | _ => None end.

(** Python's [round(x)] on a float: nearest integer, ties to even. *)
Definition py_round (x : Q) : Z :=
  let f := Qfloor x in
  match Qcompare (x - inject_Z f) (1 # 2) with
  | Lt => f
  | Gt => (f + 1)%Z
  | Eq => if Z.even f then f else (f + 1)%Z
  end.

Definition Qsum (l : list Q) : Q := foldr Qplus 0 l.

(** [Series.mean()] of a series without NaN: sum over length, computed
    exactly. *)
Definition mean (l : list Q) : Q := Qsum l / inject_Z (Z.of_nat (length l)).

(** A literal of decimal digits, the instance of the numeric parser used to
    run the model on concrete tables. *)
Fixpoint digits_value (acc : Z) (s : string) : option Z :=
  match s with
  | EmptyString => Some acc
  | String a s' =>
      let n := Ascii.nat_of_ascii a in
      if (48 <=? n)%nat && (n <=? 57)%nat
      then digits_value (10 * acc + Z.of_nat (n - 48))%Z s'
      else None
  end.

Definition parse_digits (s : string) : option Q :=
  match s with
  | EmptyString => None
  | _ => inject_Z <$> digits_value 0 s
  end.

(** A square root correct to six decimals, rounded down: the instance of
    numpy's square root used to run the model. *)
Definition sqrt_approx (q : Q) : Q :=
  Z.sqrt (Qnum q * Zpos (Qden q) * 10 ^ 12) # (Qden q * 1000000).

(** A decision function that finds a row the more anomalous the larger the
    sum of its features: the instance of the fitted model used to run the
    model. *)
Definition sample_decision (X : list (list Q)) (i : nat) : Q :=
  - default 0 (Qsum <$> X !! i).

(** ** Sample tables *)

(** Ages 150, missing, 30 and 40. *)
Definition ages_with_missing : DataFrame :=
  mkDataFrame ["age"]
    [ {[ "age" := CNum 150 ]}; {[ "age" := CNaN ]};
      {[ "age" := CNum 30 ]}; {[ "age" := CNum 40 ]} ]%string.

(** Ages on the two bounds 18 and 90, inside them and above them. *)
Definition ages_at_bounds : DataFrame :=
  mkDataFrame ["age"]
    [ {[ "age" := CNum 18 ]}; {[ "age" := CNum 90 ]};
      {[ "age" := CNum 30 ]}; {[ "age" := CNum 150 ]} ]%string.

(** An age column read as text: "abc", "150" and "30". *)
Definition ages_as_text : DataFrame :=
  mkDataFrame ["age"]
    [ {[ "age" := CText "abc" ]}; {[ "age" := CText "150" ]};
      {[ "age" := CText "30" ]} ]%string.

(** One age, 5. *)
Definition one_young_age : DataFrame :=
  mkDataFrame ["age"] [ {[ "age" := CNum 5 ]} ]%string.

(** Incomes 52000.5, missing, 52000.5, 61000 and 52000.5. *)
Definition incomes : DataFrame :=
  mkDataFrame ["annual_income"]
    [ {[ "annual_income" := CNum (104001 # 2) ]};
      {[ "annual_income" := CNaN ]};
      {[ "annual_income" := CNum (104001 # 2) ]};
      {[ "annual_income" := CNum 61000 ]};
      {[ "annual_income" := CNum (104001 # 2) ]} ]%string.


(** Four claims of type A and one of type B. *)
Definition claims : DataFrame :=
  mkDataFrame ["claim_type"; "claim_amount"]
    [ {[ "claim_type" := CText "A"; "claim_amount" := CNum 100 ]};
      {[ "claim_type" := CText "A"; "claim_amount" := CNum 100 ]};
      {[ "claim_type" := CText "A"; "claim_amount" := CNum 100 ]};
      {[ "claim_type" := CText "A"; "claim_amount" := CNum 1000 ]};
      {[ "claim_type" := CText "B"; "claim_amount" := CNum 50 ]} ]%string.

(** Claims without any pivot column. *)
Definition claims_without_pivot : DataFrame :=
  mkDataFrame ["claim_amount"]
    [ {[ "claim_amount" := CNum 100 ]};
      {[ "claim_amount" := CNum 900 ]} ]%string.

(** Two rows with a claim type and no numeric column. *)
Definition types_only : DataFrame :=
  mkDataFrame ["claim_type"]
    [ {[ "claim_type" := CText "A" ]};
      {[ "claim_type" := CText "B" ]} ]%string.

(** A header as a file may spell it. *)
Definition raw_header : list string :=
  ["Total Claim Amount "; " Age"; "Salary"; "State"]%string.

(** A float64 that is not NaN, as a float series holds it: a finite number
    or one of the two infinities. *)
Inductive float64 :=
| Finite (q : Q)
| Infinite (negative : bool).

(** The order of [value_counts]: larger count first. *)
Definition more_frequent (a b : float64 * nat) : Prop := (b.2 <= a.2)%nat.

#[local] Instance more_frequent_dec a b : Decision (more_frequent a b).
Proof. unfold more_frequent. apply _. Defined.

(** Membership of a label in the columns of a concrete frame. *)
Ltac present := apply (bool_decide_unpack _); vm_compute; exact I.

Section Engine.

(** [pd.to_numeric] on one text cell: the number it denotes, if any. *)
Variable parse_float : string -> option Q.

(** ** Numeric Range Cleaner *)

(** [_to_float_series]: [pd.to_numeric(s, errors="coerce")], cell by cell. *)
Definition to_float_cell (c : cell) : cell :=
  match c with
  | CNum q => CNum q
  | CNaN => CNaN
  | CText s => match parse_float s with Some q => CNum q | None => CNaN end
  end.

(** [out[column] = _to_float_series(out[column])] *)
Definition coerce_column (df : DataFrame) (column : string) : DataFrame :=
  mkDataFrame (columns df)
    (map (fun r => <[column := to_float_cell (cell_at r column)]> r) (rows df)).

(** [lo <= x] with [lo = -inf] when [min_val] is [None]. *)
Definition ge_lo (min_val : option Q) (x : Q) : bool :=
  match min_val with None => true | Some lo => Qle_bool lo x end.

(** [x <= hi] with [hi = inf] when [max_val] is [None]. *)
Definition le_hi (max_val : option Q) (x : Q) : bool :=
  match max_val with None => true | Some hi => Qle_bool x hi end.

(** One entry of [valid_mask]:
    [(out[column] >= lo) & (out[column] <= hi) & out[column].notna()];
    comparisons with NaN are false. *)
Definition valid_cell (min_val max_val : option Q) (c : cell) : bool :=
  match c with
  | CNum x => ge_lo min_val x && le_hi max_val x && notna c
  | _ => false
  end.

(** One entry of [~valid_mask & out[column].notna()]. *)
Definition affected_cell (min_val max_val : option Q) (c : cell) : bool :=
  negb (valid_cell min_val max_val c) && notna c.

(** One entry of [valid_mask | out[column].isna()]. *)
Definition kept_cell (min_val max_val : option Q) (c : cell) : bool :=
  valid_cell min_val max_val c || isna c.

(** [out.loc[valid_mask, column]] as a list of floats. *)
Definition valid_values (min_val max_val : option Q) (column : string)
    (rs : list record) : list Q :=
  omap (fun r => let c := cell_at r column in
                 if valid_cell min_val max_val c then cell_float c else None) rs.

(** The value substituted by the impute branch, before it is written. *)
Definition imputed_value (min_val max_val : option Q) (round_to_int : bool)
    (vals : list Q) : Q :=
  let v :=
    if (length vals =? 0)%nat then
      match min_val, max_val with
      | Some lo, Some hi => (lo + hi) / 2
      | _, _ => 0
      end
    else mean vals in
  if round_to_int then inject_Z (py_round v) else v.

(** [out.loc[~valid_mask, column] = imputed_value] on one row. *)
Definition impute_row (min_val max_val : option Q) (column : string) (v : Q)
    (r : record) : record :=
  if valid_cell min_val max_val (cell_at r column) then r
  else <[column := CNum v]> r.

Definition handle_numeric_outliers (df : DataFrame) (column method : string)
    (min_val max_val : option Q) (round_to_int : bool)
    : DataFrame * nat * option Q :=
  if bool_decide (column ∈ columns df) then
    let out := coerce_column df column in
    let affected :=
      length (List.filter
                (fun r => affected_cell min_val max_val (cell_at r column))
                (rows out)) in
    if (affected =? 0)%nat then (out, 0%nat, None)
    else if String.eqb method "leave" then (out, affected, None)
    else if String.eqb method "exclude" then
      (mkDataFrame (columns out)
         (List.filter (fun r => kept_cell min_val max_val (cell_at r column))
            (rows out)),
       affected, None)
    else
      let v := imputed_value min_val max_val round_to_int
                 (valid_values min_val max_val column (rows out)) in
      (mkDataFrame (columns out)
         (map (impute_row min_val max_val column v) (rows out)),
       affected, Some v)
  else (df, 0%nat, None).

(** ** Duplicate-Value Detector *)

(** [values = _to_float_series(df[column])] as a float series. *)
Definition float_series (df : DataFrame) (column : string) : list (option Q) :=
  map (fun r => cell_float (to_float_cell (cell_at r column))) (rows df).

(** The coerced series as the detector reads it; the cells of a table are
    finite. *)
Definition detector_values (df : DataFrame) (column : string)
    : list (option float64) :=
  map (fmap Finite) (float_series df column).

(** [a == b] on two floats that are not NaN. *)
Definition float_eqb (a b : float64) : bool :=
  match a, b with
  | Finite x, Finite y => Qeq_bool x y
  | Infinite s, Infinite t => Bool.eqb s t
  | _, _ => false
  end.

(** One entry of [values == val]; NaN equals nothing. *)
Definition eq_val (val : float64) (x : option float64) : bool :=
  match x with Some v => float_eqb v val | None => false end.

(** Number of entries of the series equal to [val]. *)
Definition occurrences (values : list (option float64)) (val : float64) : nat :=
  length (List.filter (eq_val val) values).

(** The distinct non-missing values of a series, in order of first
    appearance. *)
Fixpoint distinct_values (values : list (option float64)) : list float64 :=
  match values with
  | [] => []
  | None :: vs => distinct_values vs
  | Some q :: vs =>
      q :: List.filter (fun v => negb (float_eqb v q)) (distinct_values vs)
  end.

(** [values.value_counts()]: each distinct non-missing value with its count,
    most frequent first. *)
Definition value_counts (values : list (option float64))
    : list (float64 * nat) :=
  merge_sort more_frequent
    (map (fun v => (v, occurrences values v)) (distinct_values values)).

(** [value_counts[value_counts >= min_occurrences].index.tolist()] *)
Definition frequent_values (values : list (option float64))
    (min_occurrences : Z) : list float64 :=
  map fst
    (List.filter (fun vc : float64 * nat => (min_occurrences <=? Z.of_nat vc.2)%Z)
       (value_counts values)).

(** [width] decimal digits of [n], most significant first. *)
Fixpoint fixed_digits (width : nat) (n : Z) (acc : string) : string :=
  match width with
  | O => acc
  | S w =>
      fixed_digits w (n / 10)%Z
        (String (Ascii.ascii_of_nat (48 + Z.to_nat (n mod 10))) acc)
  end.

(** The format [.10f] of a finite number: sign, integer part, point, ten
    digits. *)
Definition format_fixed (val : Q) : string :=
  let scaled := py_round (Qabs val * inject_Z (10 ^ 10)) in
  ((if Qlt_le_dec val 0 then "-" else "") +:+
   pretty (Z.to_N (scaled / 10 ^ 10)) +:+ "." +:+
   fixed_digits 10 (scaled mod 10 ^ 10) "")%string.

(** The format [f"{val:.10f}"]; an infinity is written [inf] or [-inf],
    without a point. *)
Definition format_10f (val : float64) : string :=
  match val with
  | Finite q => format_fixed q
  | Infinite negative => if negative then "-inf" else "inf"
  end.

(** [s.rstrip(c)] for a single character [c]. *)
Fixpoint rstrip (c : ascii) (s : string) : string :=
  match s with
  | EmptyString => EmptyString
  | String a s' =>
      match rstrip c s' with
      | EmptyString => if Ascii.eqb a c then EmptyString
                       else String a EmptyString
      | t => String a t
      end
  end.

(** [c in s] *)
Fixpoint contains (c : ascii) (s : string) : bool :=
  match s with
  | EmptyString => false
  | String a s' => Ascii.eqb a c || contains c s'
  end.

(** The text up to the first [c]. *)
Fixpoint before (c : ascii) (s : string) : string :=
  match s with
  | EmptyString => EmptyString
  | String a s' => if Ascii.eqb a c then EmptyString else String a (before c s')
  end.

(** The text after the first [c] (empty when there is none). *)
Fixpoint after (c : ascii) (s : string) : string :=
  match s with
  | EmptyString => EmptyString
  | String a s' => if Ascii.eqb a c then s' else after c s'
  end.

(** [len(val_str.split('.')[1])] for a text holding a point. *)
Definition decimal_places (val_str : string) : nat :=
  String.length (before "." (after "." val_str)).

(** One iteration of the loop over [frequent_values].  The test
    [pd.notna(val)] holds of every [val]: the index of [value_counts] has no
    NaN, and a [float64] is none. *)
Definition mark_value (values : list (option float64))
    (precision_threshold : Z) (suspicious : list bool) (val : float64)
    : list bool :=
  let val_str := rstrip "0" (format_10f val) in
  if contains "." val_str then
    if (precision_threshold <=? Z.of_nat (decimal_places val_str))%Z then
      zip_with orb suspicious (map (eq_val val) values)
    else
      zip_with orb suspicious (map (eq_val val) values)
  else suspicious.

(** The detector from the coerced series on (lines 297 to 323): [suspicious]
    starts all false on the index of the series. *)
Definition detect_series (values : list (option float64))
    (min_occurrences precision_threshold : Z) : list bool :=
  let suspicious := replicate (length values) false in
  fold_left (mark_value values precision_threshold)
    (frequent_values values min_occurrences) suspicious.

Definition detect_suspicious_duplicates (df : DataFrame) (column : string)
    (min_occurrences precision_threshold : Z) : list bool :=
  if bool_decide (column ∈ columns df) then
    detect_series (detector_values df column) min_occurrences
      precision_threshold
  else replicate (length (rows df)) false.

(** The detector as the specification words it, on a series: an entry is
    suspicious exactly when its value is present and occurs at least
    [min_occurrences] times; there is no precision parameter. *)
Definition by_frequency (values : list (option float64))
    (min_occurrences : Z) : list bool :=
  map (fun x => match x with
                | Some v => (min_occurrences <=? Z.of_nat (occurrences values v))%Z
                | None => false
                end) values.

(** The same detector restricted to the finite values. *)
Definition finite_by_frequency (values : list (option float64))
    (min_occurrences : Z) : list bool :=
  map (fun x => match x with
                | Some (Finite q) =>
                    (min_occurrences <=? Z.of_nat (occurrences values (Finite q)))%Z
                | _ => false
                end) values.

(** Number of entries of a series of finite floats equal to [val]. *)
Definition frequency (values : list (option Q)) (val : Q) : nat :=
  length (List.filter
            (fun x => match x with Some q => Qeq_bool q val | None => false end)
            values).

(** The frequency mask of a column of a table. *)
Definition detect_by_frequency (df : DataFrame) (column : string)
    (min_occurrences : Z) : list bool :=
  if bool_decide (column ∈ columns df) then
    let values := float_series df column in
    map (fun x => match x with
                  | Some q => (min_occurrences <=? Z.of_nat (frequency values q))%Z
                  | None => false
                  end) values
  else replicate (length (rows df)) false.

(** ** Float series with NaN *)

(** Arithmetic on floats that may be NaN: NaN absorbs. *)
Definition fsub (a b : option Q) : option Q :=
  match a, b with Some x, Some y => Some (x - y) | _, _ => None end.

Definition fmul (a b : option Q) : option Q :=
  match a, b with Some x, Some y => Some (x * y) | _, _ => None end.

Definition fdiv (a b : option Q) : option Q :=
  match a, b with Some x, Some y => Some (x / y) | _, _ => None end.

Definition fadd (a b : option Q) : option Q :=
  match a, b with Some x, Some y => Some (x + y) | _, _ => None end.

(** [Series.fillna(0.0)] on one entry. *)
Definition fillna0 (a : option Q) : option Q :=
  match a with Some x => Some x | None => Some 0 end.

(** The entries of a series that are not NaN. *)
Definition dropna (s : list (option Q)) : list Q := omap id s.

(** [Series.mean()], NaN skipped; NaN when nothing is left. *)
Definition nanmean (s : list (option Q)) : option Q :=
  match dropna s with
  | [] => None
  | vs => Some (mean vs)
  end.

(** numpy's square root on a non-negative float. *)
Variable fsqrt : Q -> Q.

(** [Series.std(ddof=0)], NaN skipped: root of the mean squared distance to
    the mean, the means computed exactly; NaN when nothing is left. *)
Definition nanstd (s : list (option Q)) : option Q :=
  match dropna s with
  | [] => None
  | vs => let m := mean vs in
          Some (fsqrt (mean (map (fun x => (x - m) * (x - m)) vs)))
  end.

(** [Series.max()], NaN skipped; NaN when nothing is left. *)
Definition nanmax (s : list (option Q)) : option Q :=
  match dropna s with
  | [] => None
  | v :: vs => Some (foldr (fun x acc => if Qlt_le_dec acc x then x else acc) v vs)
  end.

(** Python's builtin [max(a, b)]: [b] only when [b > a]; a NaN first
    argument is returned as it is. *)
Definition py_max (a : option Q) (b : Q) : option Q :=
  match a with
  | None => None
  | Some x => if Qlt_le_dec x b then Some b else Some x
  end.

(** ** Category Deviation Scorer *)

(** A cell of a float column read by an aggregation; text makes pandas
    raise, which is [None] here, and NaN is [Some None]. *)
Definition numeric_cell (c : cell) : option (option Q) :=
  match c with
  | CNum q => Some (Some q)
  | CNaN => Some None
  | CText _ => None
  end.

(** Equality of two group keys; a NaN key belongs to no group. *)
Definition key_eqb (a b : cell) : bool :=
  match a, b with
  | CNum x, CNum y => Qeq_bool x y
  | CText s, CText t => String.eqb s t
  | _, _ => false
  end.

(** The rows of the group of key [k]. *)
Definition group_rows (df : DataFrame) (category_col : string) (k : cell)
    : list record :=
  List.filter (fun r => key_eqb (cell_at r category_col) k) (rows df).

(** The inner [zscore(s)], as the function it applies to each entry of the
    group's series [s]. *)
Definition zscore (s : list (option Q)) (x : option Q) : option Q :=
  let m := nanmean s in
  let sd := nanstd s in
  if match sd with Some v => Qeq_bool v 0 | None => true end
  then fmul (fsub x m) (Some 0)
  else fdiv (fsub x m) sd.

(** [df.groupby(category_col)[amount_col].transform(zscore)] at one row:
    NaN for a NaN key, otherwise [zscore] of the row's group at the row's
    amount. *)
Definition transform_row (df : DataFrame) (category_col amount_col : string)
    (r : record) : option (option Q) :=
  let k := cell_at r category_col in
  if isna k then Some None
  else
    s ← mapM (fun r' => numeric_cell (cell_at r' amount_col))
           (group_rows df category_col k);
    x ← numeric_cell (cell_at r amount_col);
    Some (zscore s x).

(** The result is [None] when pandas raises. *)
Definition category_amount_zscores (df : DataFrame)
    (category_col amount_col : string) : option (list (option Q)) :=
  if negb (bool_decide (amount_col ∈ columns df))
     || negb (bool_decide (category_col ∈ columns df))
  then Some (replicate (length (rows df)) None)
  else mapM (transform_row df category_col amount_col) (rows df).

(** ** Multivariate Outlier Scorer *)

Definition NUMERIC_CANDIDATES : list string :=
  ["claim_amount"; "policy_premium"; "annual_income"; "age"; "tenure_months"].

(** [IsolationForest(...).fit(X).decision_function(X)] at row [i]. *)
Variable decision_function : list (list Q) -> nat -> Q.

(** One entry of [df[num_cols].fillna(0.0).astype(float)]; [None] when the
    conversion raises. *)
Definition feature (c : cell) : option Q :=
  match c with
  | CNum q => Some q
  | CNaN => Some 0
  | CText s => parse_float s
  end.

Definition Qmin_list (d : Q) (ds : list Q) : Q :=
  foldr (fun x acc => if Qlt_le_dec x acc then x else acc) d ds.

Definition Qmax_list (d : Q) (ds : list Q) : Q :=
  foldr (fun x acc => if Qlt_le_dec acc x then x else acc) d ds.

(** The result is [None] when the conversion or the fit raises (text that is
    no number, or no row to fit on). *)
Definition isolation_forest_scores (df : DataFrame) : option (list Q) :=
  let num_cols :=
    List.filter (fun c => bool_decide (c ∈ columns df)) NUMERIC_CANDIDATES in
  match num_cols with
  | [] => Some (replicate (length (rows df)) 0)
  | _ =>
      X ← mapM (fun r => mapM (fun c => feature (cell_at r c)) num_cols)
             (rows df);
      match map (decision_function X) (seq 0 (length X)) with
      | [] => None
      | d :: ds =>
          let dec_min := Qmin_list d ds in
          let dec_max := Qmax_list d ds in
          Some (map (fun x => if Qeq_bool dec_max dec_min then 0
                              else (dec_max - x) / (dec_max - dec_min))
                  (d :: ds))
      end
  end.

(** ** Risk Aggregator *)

Record ScoredRow := mkScoredRow {
  row_data : record;
  anomaly_iforest : Q;
  anomaly_z : option Q;
  risk_score : option Q;
  risk_reason : string;
  flagged : bool
}.

Definition CATEGORY_PIVOTS : list string :=
  ["claim_type"; "policy_type"; "state"; "region"].

(** [", ".join(r)] *)
Fixpoint join (sep : string) (r : list string) : string :=
  match r with
  | [] => EmptyString
  | [x] => x
  | x :: r' => (x +:+ sep +:+ join sep r')%string
  end.

(** [x >= threshold] on a float that may be NaN. *)
Definition fge (x : option Q) (threshold : Q) : bool :=
  match x with Some v => Qle_bool threshold v | None => false end.

(** The body of the loop over [out.iterrows()]. *)
Definition reason_of (iforest : Q) (z : option Q)
    (z_threshold score_threshold : Q) : string :=
  let r := (if fge (Some iforest) score_threshold
            then ["IsolationForest outlier"%string] else []) ++
           (if fge z z_threshold
            then ["Category z-score high"%string] else []) in
  match r with
  | [] => "—"%string
  | _ => join ", " r
  end.

(** [out["anomaly_z"]]: the row means of the absolute z-scores (NaN skipped),
    or [0.0] when no pivot column is present. *)
Definition anomaly_z_series (n : nat) (zcomponents : list (list (option Q)))
    : list (option Q) :=
  match zcomponents with
  | [] => replicate n (Some 0)
  | _ => map (fun i => nanmean (map (fun z => default None (z !! i)) zcomponents))
           (seq 0 n)
  end.

(** The result is [None] when one of the scorers raises. *)
Definition flag_anomalies (df : DataFrame)
    (iforest_weight zscore_weight z_threshold score_threshold : Q)
    : option (list ScoredRow) :=
  iforest ← isolation_forest_scores df;
  zcomponents ←
    mapM (fun cat => map (fmap Qabs) <$>
                       category_amount_zscores df cat "claim_amount")
      (List.filter (fun cat => bool_decide (cat ∈ columns df)) CATEGORY_PIVOTS);
  let z := anomaly_z_series (length (rows df)) zcomponents in
  let divisor := py_max (nanmax z) 1 in
  Some (imap (fun i r =>
          let a := default 0 (iforest !! i) in
          let zi := default None (z !! i) in
          mkScoredRow r a zi
            (fadd (fmul (Some iforest_weight) (fillna0 (Some a)))
                  (fmul (Some zscore_weight) (fdiv (fillna0 zi) divisor)))
            (reason_of a zi z_threshold score_threshold)
            (fge (Some a) score_threshold || fge zi z_threshold))
        (rows df)).

(** ** The cleaning call of the interactive surface ([app.py]) *)

(** [method_map.get(label, 'impute_mean')] *)
Definition method_key (label : string) : string :=
  if String.eqb label "Impute mean" then "impute_mean"
  else if String.eqb label "Exclude rows" then "exclude"
  else if String.eqb label "Leave as-is" then "leave"
  else "impute_mean".

(** The age validation of the sidebar followed by the cleaning of the age
    column: the messages shown by [st.error], and what the cleaner returns. *)
Definition clean_age (df : DataFrame) (age_method : string)
    (age_min age_max : Z) : list string * (DataFrame * nat * option Q) :=
  ((if (age_max <=? age_min)%Z
    then ["⚠️ Min age must be less than max age"%string] else []),
   handle_numeric_outliers df "age" (method_key age_method)
     (Some (inject_Z age_min)) (Some (inject_Z age_max)) true).

(** ** Properties stated on the cleaner *)

(** [x] lies within the inclusive bounds. *)
Definition in_bounds (min_val max_val : option Q) (x : Q) : Prop :=
  (forall lo, min_val = Some lo -> lo <= x) /\
  (forall hi, max_val = Some hi -> x <= hi).

#[local] Instance in_bounds_dec (min_val max_val : option Q) (x : Q) :
  Decision (in_bounds min_val max_val x).
Proof.
  unfold in_bounds.
  destruct min_val as [lo|], max_val as [hi|].
  - destruct (Qlt_le_dec x lo) as [Hlo|Hlo].
    + right. intros [H _]. specialize (H lo eq_refl). lra.
    + destruct (Qlt_le_dec hi x) as [Hhi|Hhi].
      * right. intros [_ H]. specialize (H hi eq_refl). lra.
      * left. split; intros ? [= <-]; assumption.
  - destruct (Qlt_le_dec x lo) as [Hlo|Hlo].
    + right. intros [H _]. specialize (H lo eq_refl). lra.
    + left. split; [intros ? [= <-]; assumption|intros ? [=]].
  - destruct (Qlt_le_dec hi x) as [Hhi|Hhi].
    + right. intros [_ H]. specialize (H hi eq_refl). lra.
    + left. split; [intros ? [=]|intros ? [= <-]; assumption].
  - left. split; intros ? [=].
Defined.

(** The value of a cell after coercion, as the specification words it: the
    number the cell holds or denotes, missing for a missing cell and for a
    text that is no number. *)
Definition numeric_value (c : cell) : option Q :=
  match c with
  | CNum q => Some q
  | CNaN => None
  | CText s => parse_float s
  end.

(** The cell that holds a coerced value. *)
Definition float_cell (x : option Q) : cell :=
  match x with Some q => CNum q | None => CNaN end.

(** A row with its cell of the column coerced. *)
Definition coerced_row (column : string) (r : record) : record :=
  <[column := float_cell (numeric_value (cell_at r column))]> r.

(** The rows policy [exclude] is specified to keep: the coerced value is
    missing or lies within the bounds. *)
Definition in_range_or_missing (min_val max_val : option Q) (column : string)
    (r : record) : bool :=
  match numeric_value (cell_at r column) with
  | Some q => bool_decide (in_bounds min_val max_val q)
  | None => true
  end.

(** [affected_count] as the specification defines it: the number of rows
    whose coerced value is a number outside the bounds. *)
Definition out_of_range_count (df : DataFrame) (column : string)
    (min_val max_val : option Q) : nat :=
  length (List.filter
            (fun r => negb (in_range_or_missing min_val max_val column r))
            (rows df)).

(** The count the code reports for a present column: the entries of
    [~valid_mask & notna] on the coerced column. *)
Definition invalid_count (df : DataFrame) (column : string)
    (min_val max_val : option Q) : nat :=
  length (List.filter
            (fun r => affected_cell min_val max_val (cell_at r column))
            (rows (coerce_column df column))).

(** ** Properties stated on the detector *)

(** Number of rows of the table whose coerced value equals [val]. *)
Definition value_frequency (df : DataFrame) (column : string) (val : Q) : nat :=
  length (List.filter
            (fun r => match numeric_value (cell_at r column) with
                      | Some q => Qeq_bool q val
                      | None => false
                      end)
            (rows df)).

(** What one value of the loop marks: the entries equal to it, when it is
    finite. *)
Definition marks (val : float64) (x : option float64) : bool :=
  match val with Finite _ => eq_val val x | Infinite _ => false end.

(** ** Properties stated on the scorers *)

(** The raw deviation of row [i], from the z-score series of the pivot
    columns that are present: the mean of the absolute z-scores of the row,
    missing ones skipped, and 0 when no pivot column is present.  It is not
    divided by any maximum of the batch. *)
Definition raw_deviation (zscores : list (list (option Q))) (i : nat)
    : option Q :=
  match zscores with
  | [] => Some 0
  | _ => nanmean (map (fun zs => Qabs <$> default None (zs !! i)) zscores)
  end.

(** ** The cleaning stage of the interactive surface ([app.py]) *)

(** The income column the surface cleans: [annual_income], else [salary]. *)
Definition income_column (df : DataFrame) : option string :=
  if bool_decide ("annual_income" ∈ columns df) then Some "annual_income"
  else if bool_decide ("salary" ∈ columns df) then Some "salary"
  else None.

(** [mask.sum()] *)
Definition count_true (mask : list bool) : nat :=
  length (List.filter (fun b : bool => b) mask).

(** [df[~mask].copy()] for a mask aligned with the rows. *)
Definition drop_marked (df : DataFrame) (mask : list bool) : DataFrame :=
  mkDataFrame (columns df)
    (map fst (List.filter (fun p : record * bool => negb p.2)
                (zip (rows df) mask))).

Record Cleaning := mkCleaning {
  cleaned : DataFrame;
  affected_age : nat;
  age_imputed_value : option Q;
  affected_income : nat;
  income_imputed_value : option Q;
  affected_duplicates : nat;
  rows_removed : Z
}.

(** The block "data quality cleaning": age, then income, then suspicious
    duplicates of the income column. *)
Definition clean_data (df : DataFrame)
    (age_method income_method duplicates_method : string)
    (age_min age_max income_min income_max dup_threshold : Z) : Cleaning :=
  let original_row_count := length (rows df) in
  let '(df1, affected_age, age_imputed_value) :=
    handle_numeric_outliers df "age" (method_key age_method)
      (Some (inject_Z age_min)) (Some (inject_Z age_max)) true in
  let income_col := income_column df1 in
  let '(df2, affected_income, income_imputed_value) :=
    match income_col with
    | Some c =>
        handle_numeric_outliers df1 c (method_key income_method)
          (Some (inject_Z income_min)) (Some (inject_Z income_max)) true
    | None => (df1, 0%nat, None)
    end in
  let '(df3, affected_duplicates) :=
    match income_col with
    | Some c =>
        if negb (String.eqb duplicates_method "Ignore") then
          let has_duplicates :=
            detect_suspicious_duplicates df2 c dup_threshold 4 in
          (if String.eqb duplicates_method "Exclude rows"
           then drop_marked df2 has_duplicates else df2,
           count_true has_duplicates)
        else (df2, 0%nat)
    | None => (df2, 0%nat)
    end in
  mkCleaning df3 affected_age age_imputed_value affected_income
    income_imputed_value affected_duplicates
    (Z.of_nat original_row_count - Z.of_nat (length (rows df3))).

(** ** Data quality summary *)

(** One entry of the summary; [missing_pct] is NaN ([None]) for a column
    without rows, and the last three are Python's [None] when every value is
    missing. *)
Record ColumnQuality := mkColumnQuality {
  missing_count : nat;
  missing_pct : option Q;
  quality_min : option Q;
  quality_max : option Q;
  quality_mean : option Q
}.

Definition column_quality (series : list (option Q)) : ColumnQuality :=
  let missing := length (List.filter (fun x : option Q => negb (bool_decide (is_Some x))) series) in
  let present :=
    match dropna series with
    | [] => None
    | v :: vs => Some (v, vs)
    end in
  mkColumnQuality missing
    (match series with
     | [] => None
     | _ => Some (inject_Z (Z.of_nat missing)
                  / inject_Z (Z.of_nat (length series)) * 100)
     end)
    ((fun '(v, vs) => Qmin_list v vs) <$> present)
    ((fun '(v, vs) => Qmax_list v vs) <$> present)
    ((fun '(v, vs) => mean (v :: vs)) <$> present).

Definition get_data_quality_summary (df : DataFrame)
    : gmap string ColumnQuality :=
  fold_left
    (fun summary col =>
       if bool_decide (col ∈ columns df)
       then <[col := column_quality (float_series df col)]> summary
       else summary)
    ["age"; "annual_income"; "claim_amount"]%string ∅.

(** ** Column coalescing *)

(** The characters [str.strip()] removes, among the ASCII ones. *)
Definition is_space (a : ascii) : bool :=
  let n := nat_of_ascii a in
  ((9 <=? n) && (n <=? 13) || (28 <=? n) && (n <=? 32))%nat.

Fixpoint lstrip_space (s : string) : string :=
  match s with
  | EmptyString => EmptyString
  | String a s' => if is_space a then lstrip_space s' else s
  end.

Fixpoint rstrip_space (s : string) : string :=
  match s with
  | EmptyString => EmptyString
  | String a s' =>
      match rstrip_space s' with
      | EmptyString => if is_space a then EmptyString
                       else String a EmptyString
      | t => String a t
      end
  end.

(** [str.lower()] on one ASCII character. *)
Definition lower_ascii (a : ascii) : ascii :=
  let n := nat_of_ascii a in
  if ((65 <=? n) && (n <=? 90))%nat then ascii_of_nat (n + 32) else a.

Fixpoint map_string (f : ascii -> ascii) (s : string) : string :=
  match s with
  | EmptyString => EmptyString
  | String a s' => String (f a) (map_string f s')
  end.

(** [c.strip().lower().replace(" ", "_")] on an ASCII label. *)
Definition normalize_label (c : string) : string :=
  map_string (fun a => if Ascii.eqb a " " then "_"%char else a)
    (map_string lower_ascii (rstrip_space (lstrip_space c))).

Definition alias_map : list (string * string) :=
  [ ("total_claim_amount", "claim_amount");
    ("total_claim_value", "claim_amount");
    ("claim_value", "claim_amount");
    ("amount", "claim_amount");
    ("coverage_amount", "claim_amount");
    ("premium", "policy_premium");
    ("policy_annual_premium", "policy_premium");
    ("premium_amount", "policy_premium");
    ("education", "customer_education");
    ("education_level", "customer_education");
    ("salary", "annual_income");
    ("income", "annual_income");
    ("income_level", "annual_income");
    ("state_code", "state");
    ("location", "state");
    ("geographic_information", "region");
    ("customer_id", "claim_id");
    ("customer_lifetime_value", "lifetime_value");
    ("customer_value", "lifetime_value");
    ("months_since_policy_inception", "tenure_months");
    ("policy_tenure", "tenure_months");
    ("marital_status", "marital_status");
    ("claim_history", "previous_claims");
    ("previous_claims_history", "previous_claims") ]%string.

(** [df.rename(columns={old: new})] on the labels. *)
Definition rename_label (old new : string) (cols : list string) : list string :=
  map (fun c => if String.eqb c old then new else c) cols.

(** One iteration of the loop over [alias_map.items()]. *)
Definition apply_alias (cols : list string) (alias : string * string)
    : list string :=
  if bool_decide (alias.1 ∈ cols) && negb (bool_decide (alias.2 ∈ cols))
  then rename_label alias.1 alias.2 cols
  else cols.

(** [coalesce_columns] on the column labels; the data under the labels is
    not touched by the function. *)
Definition coalesce_columns (cols : list string) : list string :=
  fold_left apply_alias alias_map (map normalize_label cols).

(** The rows a cleaning returns hold a coerced cell under the column. *)
Definition settled_row (column : string) (r : record) : Prop :=
  exists c, r !! column = Some c /\ to_float_cell c = c.

(** No alias target is the key of another renaming: a target that is a key
    is the key of its own identity alias. *)
Definition targets_final (al : list (string * string)) : Prop :=
  forall a b, In a al -> In b al -> a.2 = b.1 -> b.2 = b.1.

(** An alias that will not fire on these labels. *)
Definition settled_alias (cols : list string) (a : string * string) : Prop :=
  a.1 ∉ cols \/ a.2 ∈ cols.

(** A label that does not start with a space character. *)
Definition head_ok (u : string) : Prop :=
  match u with
  | EmptyString => True
  | String a _ => is_space a = false
  end.

(** The two character maps of [normalize_label] in one. *)
Definition normalize_char (a : ascii) : ascii :=
  let b := lower_ascii a in if Ascii.eqb b " " then "_"%char else b.

(** The frames the scorers accept: no text in a numeric candidate column. *)
Definition numeric_cells (df : DataFrame) : Prop :=
  forall r c s, In r (rows df) -> In c NUMERIC_CANDIDATES ->
    cell_at r c <> CText s.

(** * Proofs *)


(** ** Cells and the coercion *)

Lemma cell_at_insert (r : record) (column : string) (c : cell) :
  cell_at (<[column := c]> r) column = c.
Proof. unfold cell_at. by rewrite lookup_insert_eq. Qed.

Lemma cell_at_insert_ne (r : record) (column other : string) (c : cell) :
  column <> other -> cell_at (<[column := c]> r) other = cell_at r other.
Proof. intros Hne. unfold cell_at. by rewrite lookup_insert_ne. Qed.

Lemma to_float_cell_idem (c : cell) :
  to_float_cell (to_float_cell c) = to_float_cell c.
Proof. destruct c as [q| |s]; simpl; try done. by destruct (parse_float s). Qed.

Lemma to_float_cell_numeric (c : cell) :
  to_float_cell c = CNaN \/ exists q, to_float_cell c = CNum q.
Proof.
  destruct c as [q| |s]; simpl; eauto.
  destruct (parse_float s); eauto.
Qed.

Lemma coerced_cell (df : DataFrame) (column : string) (r : record) :
  In r (rows (coerce_column df column)) ->
  to_float_cell (cell_at r column) = cell_at r column.
Proof.
  simpl. rewrite in_map_iff. intros (r0 & <- & _).
  rewrite cell_at_insert. apply to_float_cell_idem.
Qed.

Lemma valid_cell_in_bounds (min_val max_val : option Q) (c : cell) :
  valid_cell min_val max_val c = true <->
  exists q, c = CNum q /\ in_bounds min_val max_val q.
Proof.
  unfold valid_cell, in_bounds, ge_lo, le_hi. split.
  - destruct c as [q| |s]; try discriminate. intros H.
    apply andb_true_iff in H as [H _]. apply andb_true_iff in H as [Hlo Hhi].
    exists q. split; [done|]. split.
    + intros lo ->. by apply Qle_bool_iff.
    + intros hi ->. by apply Qle_bool_iff.
  - intros (q & -> & Hlo & Hhi). simpl. rewrite andb_true_r.
    apply andb_true_iff. split.
    + destruct min_val as [lo|]; [|done]. apply Qle_bool_iff. by apply Hlo.
    + destruct max_val as [hi|]; [|done]. apply Qle_bool_iff. by apply Hhi.
Qed.

Lemma kept_not_affected (min_val max_val : option Q) (c : cell) :
  kept_cell min_val max_val c = negb (affected_cell min_val max_val c).
Proof.
  unfold kept_cell, affected_cell, isna.
  by destruct (valid_cell min_val max_val c), (notna c).
Qed.

Lemma filter_split_length {A} (p : A -> bool) (l : list A) :
  (length (List.filter (fun x => negb (p x)) l) + length (List.filter p l)
   = length l)%nat.
Proof.
  induction l as [|a l IH]; simpl; [done|].
  destruct (p a); simpl; lia.
Qed.

Lemma filter_none {A} (p : A -> bool) (l : list A) :
  length (List.filter p l) = 0%nat -> forall x, In x l -> p x = false.
Proof.
  induction l as [|a l IH]; simpl; [done|].
  destruct (p a) eqn:Hp; simpl; [discriminate|].
  intros Hl x [<-|Hin]; [done|]. by apply IH.
Qed.

Lemma filter_all {A} (p : A -> bool) (l : list A) :
  (forall x, In x l -> p x = true) -> List.filter p l = l.
Proof.
  induction l as [|a l IH]; simpl; [done|]. intros H.
  rewrite (H a) by auto. f_equal. apply IH. auto.
Qed.

Lemma filter_none_length {A} (p : A -> bool) (l : list A) :
  (forall x, In x l -> p x = false) -> length (List.filter p l) = 0%nat.
Proof.
  induction l as [|a l IH]; simpl; [done|]. intros H.
  rewrite (H a) by auto. apply IH. auto.
Qed.

Lemma filter_sublist {A} (p : A -> bool) (l : list A) :
  sublist (List.filter p l) l.
Proof.
  induction l as [|a l IH]; simpl; [constructor|].
  destruct (p a); by constructor.
Qed.

Lemma map_filter_comm {A B} (f : A -> B) (g : B -> bool) (l : list A) :
  map f (List.filter (fun x => g (f x)) l) = List.filter g (map f l).
Proof.
  induction l as [|a l IH]; simpl; [done|].
  destruct (g (f a)); simpl; by rewrite IH.
Qed.

(** The coercion of the code gives every cell the value the specification
    gives it. *)
Lemma to_float_cell_value (c : cell) :
  to_float_cell c = float_cell (numeric_value c).
Proof. by destruct c. Qed.

Lemma cell_float_value (c : cell) :
  cell_float (to_float_cell c) = numeric_value c.
Proof.
  rewrite to_float_cell_value. by destruct (numeric_value c).
Qed.

Lemma coerce_column_rows (df : DataFrame) (column : string) :
  rows (coerce_column df column) = map (coerced_row column) (rows df).
Proof.
  simpl. apply map_ext. intros r. unfold coerced_row.
  by rewrite to_float_cell_value.
Qed.

(** The three results of the cleaner when the column is present, branch by
    branch. *)
Lemma handle_numeric_outliers_present (df : DataFrame) (column method : string)
    (min_val max_val : option Q) (round_to_int : bool) :
  column ∈ columns df ->
  let out := coerce_column df column in
  let affected := invalid_count df column min_val max_val in
  handle_numeric_outliers df column method min_val max_val round_to_int =
    if (affected =? 0)%nat then (out, 0%nat, None)
    else if String.eqb method "leave" then (out, affected, None)
    else if String.eqb method "exclude" then
      (mkDataFrame (columns df)
         (List.filter (fun r => kept_cell min_val max_val (cell_at r column))
            (rows out)),
       affected, None)
    else
      let v := imputed_value min_val max_val round_to_int
                 (valid_values min_val max_val column (rows out)) in
      (mkDataFrame (columns df)
         (map (impute_row min_val max_val column v) (rows out)),
       affected, Some v).
Proof.
  intros Hin. unfold handle_numeric_outliers.
  by rewrite bool_decide_eq_true_2.
Qed.

Lemma handle_numeric_outliers_absent (df : DataFrame) (column method : string)
    (min_val max_val : option Q) (round_to_int : bool) :
  column ∉ columns df ->
  handle_numeric_outliers df column method min_val max_val round_to_int =
    (df, 0%nat, None).
Proof.
  intros Hin. unfold handle_numeric_outliers.
  by rewrite bool_decide_eq_false_2.
Qed.

(** ** Policy [exclude] *)

Lemma columns_preserved (df : DataFrame) (column method : string)
    (min_val max_val : option Q) (round_to_int : bool) :
  columns (handle_numeric_outliers df column method min_val max_val
             round_to_int).1.1 = columns df.
Proof.
  unfold handle_numeric_outliers. case_bool_decide; [|done]. cbv zeta.
  destruct (_ =? 0)%nat; [done|].
  by destruct (String.eqb method "leave"), (String.eqb method "exclude").
Qed.

Lemma exclude_result (df : DataFrame) (column : string)
    (min_val max_val : option Q) (round_to_int : bool) :
  column ∈ columns df ->
  let res := handle_numeric_outliers df column "exclude" min_val max_val
               round_to_int in
  rows res.1.1 =
    List.filter (fun r => kept_cell min_val max_val (cell_at r column))
      (rows (coerce_column df column)) /\
  res.1.2 = invalid_count df column min_val max_val /\
  res.2 = None.
Proof.
  intros Hin. cbv zeta.
  rewrite handle_numeric_outliers_present by done. cbv zeta.
  destruct (Nat.eqb_spec (invalid_count df column min_val max_val) 0)
    as [Hz|Hnz]; simpl.
  - split; [|done]. symmetry. apply filter_all. intros r Hr.
    rewrite kept_not_affected.
    by rewrite (filter_none _ _ Hz r Hr).
  - done.
Qed.

(** The mask of policy [exclude] keeps the rows the specification keeps. *)
Lemma kept_cell_spec (min_val max_val : option Q) (column : string)
    (r : record) :
  kept_cell min_val max_val (cell_at (coerced_row column r) column) =
  in_range_or_missing min_val max_val column r.
Proof.
  unfold coerced_row, in_range_or_missing. rewrite cell_at_insert.
  destruct (numeric_value (cell_at r column)) as [q|]; simpl; [|done].
  unfold kept_cell. simpl isna. rewrite orb_false_r.
  case_bool_decide as Hb.
  - apply valid_cell_in_bounds. by exists q.
  - apply not_true_is_false.
    intros (q' & [= <-] & Hq)%valid_cell_in_bounds. done.
Qed.

(** The count of the code is the count of the specification. *)
Lemma invalid_count_spec (df : DataFrame) (column : string)
    (min_val max_val : option Q) :
  invalid_count df column min_val max_val =
  out_of_range_count df column min_val max_val.
Proof.
  unfold invalid_count, out_of_range_count. rewrite coerce_column_rows.
  rewrite <- (map_filter_comm (coerced_row column)
                (fun r => affected_cell min_val max_val (cell_at r column))).
  rewrite length_map. f_equal. apply filter_ext. intros r.
  rewrite <- kept_cell_spec, kept_not_affected. by rewrite negb_involutive.
Qed.

(** C2. Under policy [exclude], with the column present.  The returned rows
    are exactly the input rows whose coerced value is missing or lies within
    the inclusive bounds, each with its cell of the column coerced, in input
    order; so a row whose value lies within the bounds survives.  The
    reported count is the number of input rows whose coerced value is a
    number outside the bounds, and the column labels are unchanged.
    Consequently: every non-missing value of the column in the returned
    table lies within the bounds; the row count drops by exactly the
    reported count; rows whose value is missing after coercion are all
    kept; and the returned rows are a subsequence of the coerced input rows,
    so survivors keep their relative order. *)
Theorem clean_exclude (df : DataFrame) (column : string)
    (min_val max_val : option Q) (round_to_int : bool) :
  column ∈ columns df ->
  let res := handle_numeric_outliers df column "exclude" min_val max_val
               round_to_int in
  let out := res.1.1 in
  let affected_count := res.1.2 in
  rows out =
    map (coerced_row column)
      (List.filter (in_range_or_missing min_val max_val column) (rows df)) /\
  affected_count = out_of_range_count df column min_val max_val /\
  columns out = columns df /\
  (forall r q, In r (rows df) ->
     numeric_value (cell_at r column) = Some q ->
     in_bounds min_val max_val q -> In (coerced_row column r) (rows out)) /\
  (forall r, In r (rows out) -> notna (cell_at r column) = true ->
     exists q, cell_at r column = CNum q /\ in_bounds min_val max_val q) /\
  affected_count = invalid_count df column min_val max_val /\
  (length (rows out) + affected_count = length (rows df))%nat /\
  (forall r, In r (rows (coerce_column df column)) ->
     isna (cell_at r column) = true -> In r (rows out)) /\
  sublist (rows out) (rows (coerce_column df column)).
Proof.
  intros Hin. cbv zeta.
  destruct (exclude_result df column min_val max_val round_to_int Hin)
    as (Hrows & Hcount & _).
  assert (Hspec :
    List.filter (fun r => kept_cell min_val max_val (cell_at r column))
      (rows (coerce_column df column)) =
    map (coerced_row column)
      (List.filter (in_range_or_missing min_val max_val column) (rows df))).
  { rewrite coerce_column_rows.
    rewrite <- (map_filter_comm (coerced_row column)
                  (fun r => kept_cell min_val max_val (cell_at r column))).
    f_equal. apply filter_ext. intros r. apply kept_cell_spec. }
  split; [by rewrite Hrows, Hspec|].
  split; [by rewrite Hcount, invalid_count_spec|].
  split; [apply columns_preserved|].
  split.
  { intros r q Hr Hq Hb. rewrite Hrows, Hspec. apply in_map.
    apply filter_In. split; [done|]. unfold in_range_or_missing.
    rewrite Hq. by apply bool_decide_eq_true_2. }
  rewrite Hrows, Hcount. repeat split.
  - intros r Hr Hna. apply filter_In in Hr as [_ Hkept].
    apply valid_cell_in_bounds. unfold kept_cell, isna in Hkept.
    rewrite Hna in Hkept. simpl in Hkept. by rewrite orb_false_r in Hkept.
  - unfold invalid_count.
    rewrite (filter_ext _ _ (fun r => kept_not_affected min_val max_val
                                        (cell_at r column))).
    rewrite filter_split_length. simpl. apply length_map.
  - intros r Hr Hna. apply filter_In. split; [done|].
    unfold kept_cell. rewrite Hna. apply orb_true_r.
  - apply filter_sublist.
Qed.

(** ** Policy [impute_mean] *)

Lemma impute_row_cell (min_val max_val : option Q) (column : string) (v : Q)
    (r : record) :
  cell_at (impute_row min_val max_val column v r) column =
    if valid_cell min_val max_val (cell_at r column) then cell_at r column
    else CNum v.
Proof.
  unfold impute_row.
  destruct (valid_cell min_val max_val (cell_at r column)); [done|].
  apply cell_at_insert.
Qed.

Lemma impute_row_other (min_val max_val : option Q) (column other : string)
    (v : Q) (r : record) :
  column <> other ->
  cell_at (impute_row min_val max_val column v r) other = cell_at r other.
Proof.
  intros Hne. unfold impute_row.
  destruct (valid_cell min_val max_val (cell_at r column)); [done|].
  by apply cell_at_insert_ne.
Qed.

(** Under the imputing policy, with the column present and at least one
    out-of-range value: the returned rows are the coerced rows with every
    cell outside the valid mask replaced by the one reported value.  Valid
    cells are untouched and out-of-range cells take the reported value; a
    cell that is missing is outside the valid mask too and is overwritten
    with that value. *)
Lemma impute_row_by_row (df : DataFrame) (column method : string)
    (min_val max_val : option Q) (round_to_int : bool) :
  column ∈ columns df ->
  invalid_count df column min_val max_val <> 0%nat ->
  String.eqb method "leave" = false ->
  String.eqb method "exclude" = false ->
  let res := handle_numeric_outliers df column method min_val max_val
               round_to_int in
  exists v,
    res.2 = Some v /\
    rows res.1.1 =
      map (impute_row min_val max_val column v)
        (rows (coerce_column df column)) /\
    forall r, In r (rows (coerce_column df column)) ->
      let c := cell_at r column in
      let c' := cell_at (impute_row min_val max_val column v r) column in
      (valid_cell min_val max_val c = true -> c' = c) /\
      (affected_cell min_val max_val c = true -> c' = CNum v) /\
      (isna c = true -> c' = CNum v).
Proof.
  intros Hin Hnz Hleave Hexcl. cbv zeta.
  rewrite handle_numeric_outliers_present by done. cbv zeta.
  apply Nat.eqb_neq in Hnz. rewrite Hnz, Hleave, Hexcl. simpl.
  eexists. split; [done|]. split; [done|].
  intros r _. rewrite impute_row_cell. unfold affected_cell, isna.
  destruct (valid_cell min_val max_val (cell_at r column)) eqn:Hv.
  - split; [done|]. split; [done|].
    apply valid_cell_in_bounds in Hv as (q & -> & _). done.
  - done.
Qed.

(** ** Policy [leave] *)

(** Under policy [leave], with the column present, the returned table is
    the coerced copy of the input: in the cleaned column a text cell that is
    no number comes back as missing. *)
Lemma leave_result (df : DataFrame) (column : string)
    (min_val max_val : option Q) (round_to_int : bool) :
  column ∈ columns df ->
  let res := handle_numeric_outliers df column "leave" min_val max_val
               round_to_int in
  res.1.1 = coerce_column df column /\
  res.1.2 = invalid_count df column min_val max_val /\
  res.2 = None /\
  forall i r s, rows df !! i = Some r ->
    cell_at r column = CText s -> parse_float s = None ->
    exists r', rows res.1.1 !! i = Some r' /\ cell_at r' column = CNaN.
Proof.
  intros Hin. cbv zeta.
  rewrite handle_numeric_outliers_present by done. cbv zeta.
  assert (Hres :
    (if (invalid_count df column min_val max_val =? 0)%nat
     then (coerce_column df column, 0%nat, @None Q)
     else (coerce_column df column,
           invalid_count df column min_val max_val, None)) =
    (coerce_column df column, invalid_count df column min_val max_val, None)).
  { destruct (Nat.eqb_spec (invalid_count df column min_val max_val) 0)
      as [->|]; done. }
  simpl. rewrite Hres. simpl. repeat split.
  intros i r s Hi Hc Hp.
  exists (<[column := to_float_cell (cell_at r column)]> r). split.
  - rewrite list_lookup_fmap, Hi. done.
  - rewrite cell_at_insert, Hc. simpl. by rewrite Hp.
Qed.

(** ** Cleaning a cleaned table *)

Lemma affected_count_eq (df : DataFrame) (column method : string)
    (min_val max_val : option Q) (round_to_int : bool) :
  column ∈ columns df ->
  (handle_numeric_outliers df column method min_val max_val round_to_int).1.2
  = invalid_count df column min_val max_val.
Proof.
  intros Hin. rewrite handle_numeric_outliers_present by done. cbv zeta.
  destruct (Nat.eqb_spec (invalid_count df column min_val max_val) 0)
    as [->|]; [done|].
  by destruct (String.eqb method "leave"), (String.eqb method "exclude").
Qed.

Lemma invalid_count_zero (df : DataFrame) (column : string)
    (min_val max_val : option Q) :
  (forall r, In r (rows df) ->
     affected_cell min_val max_val (to_float_cell (cell_at r column)) = false) ->
  invalid_count df column min_val max_val = 0%nat.
Proof.
  intros H. unfold invalid_count. apply filter_none_length.
  simpl. intros r' (r & <- & Hr)%in_map_iff.
  rewrite cell_at_insert. by apply H.
Qed.

Lemma valid_not_affected (min_val max_val : option Q) (c : cell) :
  valid_cell min_val max_val c = true ->
  affected_cell min_val max_val (to_float_cell c) = false.
Proof.
  intros Hv. unfold affected_cell.
  destruct c as [q| |s]; try discriminate. simpl to_float_cell.
  by rewrite Hv.
Qed.

Lemma reclean_affected_zero (df : DataFrame)
    (column method method' : string) (min_val max_val : option Q)
    (round_to_int round_to_int' : bool) :
  let res := handle_numeric_outliers df column method min_val max_val
               round_to_int in
  String.eqb method "exclude" = true \/
  (String.eqb method "leave" = false /\
   forall v, res.2 = Some v -> in_bounds min_val max_val v) ->
  (handle_numeric_outliers res.1.1 column method' min_val max_val
     round_to_int').1.2 = 0%nat.
Proof.
  cbv zeta. intros Hm.
  destruct (decide (column ∈ columns df)) as [Hin|Hnin]; cycle 1.
  { rewrite (handle_numeric_outliers_absent df) by done. simpl.
    by rewrite handle_numeric_outliers_absent. }
  rewrite affected_count_eq by (by rewrite columns_preserved).
  apply invalid_count_zero.
  revert Hm. rewrite handle_numeric_outliers_present by done. cbv zeta.
  destruct (Nat.eqb_spec (invalid_count df column min_val max_val) 0)
    as [Hz|Hnz].
  { intros _. simpl. intros r Hr.
    rewrite (coerced_cell df column r Hr).
    apply (filter_none _ _ Hz r Hr). }
  destruct (String.eqb method "leave") eqn:Hleave.
  { intros [He|[? _]]; [|done].
    apply String.eqb_eq in He, Hleave. congruence. }
  destruct (String.eqb method "exclude") eqn:Hexcl; simpl.
  - intros _ r [Hr Hkept]%filter_In.
    rewrite (coerced_cell df column r Hr).
    rewrite kept_not_affected in Hkept. by apply negb_true_iff.
  - intros [?|[_ Hv]]; [done|].
    intros r' (r & <- & Hr)%in_map_iff. apply valid_not_affected.
    rewrite impute_row_cell.
    destruct (valid_cell min_val max_val (cell_at r column)) eqn:Hvc; [done|].
    apply valid_cell_in_bounds. eexists. split; [done|]. by apply Hv.
Qed.

(** ** The mean of values that are not negative *)

Lemma Qsum_lower (lo : Q) (l : list Q) :
  (forall x, In x l -> lo <= x) ->
  lo * inject_Z (Z.of_nat (length l)) <= Qsum l.
Proof.
  induction l as [|a l IH]; intros H.
  - change (lo * 0 <= 0). lra.
  - change (length (a :: l)) with (S (length l)).
    rewrite Nat2Z.inj_succ. unfold Z.succ. rewrite inject_Z_plus.
    change (Qsum (a :: l)) with (a + Qsum l).
    assert (lo <= a) by (apply H; by left).
    assert (lo * inject_Z (Z.of_nat (length l)) <= Qsum l)
      by (apply IH; intros; apply H; by right).
    change (inject_Z 1) with 1. lra.
Qed.

Lemma length_pos_Q {A} (l : list A) :
  l <> [] -> 0 < inject_Z (Z.of_nat (length l)).
Proof.
  intros Hne. destruct l as [|a l]; [done|].
  change 0 with (inject_Z 0). rewrite <- Zlt_Qlt. simpl length. lia.
Qed.

Lemma mean_nonneg (l : list Q) :
  (forall x, In x l -> 0 <= x) -> 0 <= mean l.
Proof.
  intros H. destruct l as [|a l]; [done|].
  pose proof (length_pos_Q (a :: l) ltac:(done)) as Hpos.
  unfold mean. apply Qle_shift_div_l; [done|].
  pose proof (Qsum_lower 0 (a :: l) H) as Hs. lra.
Qed.

(** C4, amended.  Cleaning again, under any policy and with the same bounds,
    the table returned by a first cleaning reports no affected value when
    the first policy was [exclude], or when it was the imputing policy and
    the value it reported (if it imputed at all) lies within the bounds. *)
Theorem clean_twice_affected_zero (df : DataFrame)
    (column method method' : string) (min_val max_val : option Q)
    (round_to_int round_to_int' : bool) :
  let res := handle_numeric_outliers df column method min_val max_val
               round_to_int in
  let affected_again :=
    (handle_numeric_outliers res.1.1 column method' min_val max_val
       round_to_int').1.2 in
  String.eqb method "exclude" = true \/
  (String.eqb method "leave" = false /\
   forall v, res.2 = Some v -> in_bounds min_val max_val v) ->
  affected_again = 0%nat.
Proof. apply reclean_affected_zero. Qed.

(** ** No validation of the configuration *)

Lemma unknown_method_imputes (df : DataFrame) (column method : string)
    (min_val max_val : option Q) (round_to_int : bool) :
  String.eqb method "leave" = false ->
  String.eqb method "exclude" = false ->
  handle_numeric_outliers df column method min_val max_val round_to_int =
  handle_numeric_outliers df column "impute_mean" min_val max_val round_to_int.
Proof.
  intros Hl He. unfold handle_numeric_outliers. by rewrite Hl, He.
Qed.

Lemma inverted_bounds_invalid (lo hi : Q) (c : cell) :
  hi < lo -> valid_cell (Some lo) (Some hi) c = false.
Proof.
  intros Hlt. apply not_true_is_false.
  intros (q & -> & Hlo & Hhi)%valid_cell_in_bounds.
  specialize (Hlo lo eq_refl). specialize (Hhi hi eq_refl). lra.
Qed.

(** C6, amended.  The cleaner validates nothing and always returns a
    result: a policy name other than [leave] and [exclude] is cleaned
    exactly as [impute_mean] is; with the minimum above the maximum no value
    is valid, so every non-missing value of the column counts as affected.
    The interactive surface shows its message exactly when the minimum is
    not below the maximum, and returns the cleaner's result for the bounds
    it was given whether or not the message is shown. *)
Theorem configuration_not_validated (df : DataFrame) (column : string)
    (round_to_int : bool) :
  (forall method min_val max_val,
     String.eqb method "leave" = false ->
     String.eqb method "exclude" = false ->
     handle_numeric_outliers df column method min_val max_val round_to_int =
     handle_numeric_outliers df column "impute_mean" min_val max_val
       round_to_int) /\
  (forall method lo hi, hi < lo -> column ∈ columns df ->
     (handle_numeric_outliers df column method (Some lo) (Some hi)
        round_to_int).1.2 =
     length (List.filter (fun r => notna (cell_at r column))
               (rows (coerce_column df column)))) /\
  (forall age_method age_min age_max,
     ((clean_age df age_method age_min age_max).1 <> [] <->
      (age_max <= age_min)%Z) /\
     (clean_age df age_method age_min age_max).2 =
       handle_numeric_outliers df "age" (method_key age_method)
         (Some (inject_Z age_min)) (Some (inject_Z age_max)) true).
Proof.
  split; [|split].
  - intros. by apply unknown_method_imputes.
  - intros method lo hi Hlt Hin. rewrite affected_count_eq by done.
    unfold invalid_count. f_equal. apply filter_ext. intros r.
    unfold affected_cell. by rewrite inverted_bounds_invalid.
  - intros age_method age_min age_max. split; [|done].
    unfold clean_age. simpl.
    destruct (Z.leb_spec age_max age_min); split; try done; lia.
Qed.

(** ** Duplicate-Value Detector *)

Lemma contains_append (c : ascii) (s t : string) :
  contains c (s +:+ t) = contains c s || contains c t.
Proof.
  induction s as [|a s IH]; simpl; [done|].
  rewrite IH. apply orb_assoc.
Qed.

Lemma contains_rstrip (c d : ascii) (s : string) :
  Ascii.eqb c d = false -> contains d (rstrip c s) = contains d s.
Proof.
  intros Hne. induction s as [|a s IH]; simpl; [done|].
  destruct (rstrip c s) as [|b t] eqn:Hr.
  - simpl in IH. rewrite <- IH, orb_false_r.
    destruct (Ascii.eqb_spec a c) as [->|]; simpl; [|by rewrite orb_false_r].
    by rewrite Hne.
  - simpl. simpl in IH. by rewrite IH.
Qed.

(** The text of a value holds a point exactly when the value is finite. *)
Lemma format_has_point (val : float64) :
  contains "." (rstrip "0" (format_10f val)) =
  match val with Finite _ => true | Infinite _ => false end.
Proof.
  destruct val as [q|[|]]; [|done|done].
  rewrite contains_rstrip by done. unfold format_10f, format_fixed.
  rewrite !contains_append. simpl. by rewrite !orb_true_r.
Qed.

Lemma mark_value_finite (values : list (option float64))
    (precision_threshold : Z) (suspicious : list bool) (q : Q) :
  mark_value values precision_threshold suspicious (Finite q) =
  zip_with orb suspicious (map (eq_val (Finite q)) values).
Proof.
  unfold mark_value. cbv zeta.
  rewrite format_has_point. by destruct (_ <=? _)%Z.
Qed.

Lemma mark_value_infinite (values : list (option float64))
    (precision_threshold : Z) (suspicious : list bool) (negative : bool) :
  mark_value values precision_threshold suspicious (Infinite negative) =
  suspicious.
Proof.
  unfold mark_value. cbv zeta. by rewrite format_has_point.
Qed.

Lemma zip_with_map_same {A B C D} (f : B -> C -> D) (g : A -> B) (h : A -> C)
    (l : list A) :
  zip_with f (map g l) (map h l) = map (fun x => f (g x) (h x)) l.
Proof. induction l as [|a l IH]; simpl; [done|]. by rewrite IH. Qed.

Lemma mark_all (values : list (option float64)) (precision_threshold : Z)
    (vals : list float64) (g : option float64 -> bool) :
  fold_left (mark_value values precision_threshold) vals (map g values) =
  map (fun x => g x || existsb (fun v => marks v x) vals) values.
Proof.
  revert g. induction vals as [|a vals IH]; intros g; simpl.
  - apply map_ext. intros x. by rewrite orb_false_r.
  - destruct a as [q|n].
    + rewrite mark_value_finite, zip_with_map_same, IH.
      apply map_ext. intros x. by rewrite orb_assoc.
    + rewrite mark_value_infinite, IH. done.
Qed.

Lemma Qeq_bool_congr (q v x : Q) :
  Qeq_bool q v = true -> Qeq_bool x q = Qeq_bool x v.
Proof.
  intros Hqv%Qeq_bool_iff.
  destruct (Qeq_bool x q) eqn:H1, (Qeq_bool x v) eqn:H2; try done.
  - apply Qeq_bool_iff in H1. apply Qeq_bool_neq in H2.
    destruct H2. by rewrite H1.
  - apply Qeq_bool_iff in H2. apply Qeq_bool_neq in H1.
    destruct H1. by rewrite H2, Hqv.
Qed.

Lemma float_eqb_refl (v : float64) : float_eqb v v = true.
Proof. destruct v as [q|[|]]; simpl; [apply Qeq_bool_refl|done|done]. Qed.

Lemma float_eqb_trans (a b c : float64) :
  float_eqb a b = true -> float_eqb b c = true -> float_eqb a c = true.
Proof.
  destruct a as [x|m], b as [y|n], c as [z|k]; simpl; try done.
  - apply Qeq_bool_trans.
  - intros ->%Bool.eqb_prop ->%Bool.eqb_prop. apply Bool.eqb_reflx.
Qed.

Lemma float_eqb_congr (q v x : float64) :
  float_eqb q v = true -> float_eqb x q = float_eqb x v.
Proof.
  destruct q as [a|m], v as [b|n], x as [c|k]; simpl; try done.
  - apply Qeq_bool_congr.
  - by intros ->%Bool.eqb_prop.
Qed.

Lemma occurrences_congr (values : list (option float64)) (q v : float64) :
  float_eqb q v = true -> occurrences values q = occurrences values v.
Proof.
  intros Hqv. unfold occurrences. f_equal. apply filter_ext.
  intros [x|]; simpl; [|done]. by apply float_eqb_congr.
Qed.

Lemma frequency_congr (values : list (option Q)) (q v : Q) :
  Qeq_bool q v = true -> frequency values q = frequency values v.
Proof.
  intros Hqv. unfold frequency. f_equal. apply filter_ext.
  intros [x|]; [|done]. by apply Qeq_bool_congr.
Qed.

Lemma distinct_values_in (values : list (option float64)) (v : float64) :
  In v (distinct_values values) -> In (Some v) values.
Proof.
  induction values as [|[a|] vs IH]; simpl; [done| |by auto].
  intros [->|[Hin _]%filter_In]; auto.
Qed.

Lemma distinct_values_represent (values : list (option float64))
    (q : float64) :
  In (Some q) values ->
  exists v, In v (distinct_values values) /\ float_eqb q v = true.
Proof.
  induction values as [|[a|] vs IH]; simpl; [done| |].
  - intros [[= ->]|Hin].
    + exists q. split; [by left|]. apply float_eqb_refl.
    + destruct (IH Hin) as (v & Hv & Hqv).
      destruct (float_eqb v a) eqn:Hva.
      * exists a. split; [by left|]. by apply float_eqb_trans with v.
      * exists v. split; [|done]. right. apply filter_In.
        by rewrite Hva.
  - intros [?|Hin]; [done|]. by apply IH.
Qed.

Lemma frequent_values_in (values : list (option float64))
    (min_occurrences : Z) (v : float64) :
  In v (frequent_values values min_occurrences) <->
  In v (distinct_values values) /\
  (min_occurrences <= Z.of_nat (occurrences values v))%Z.
Proof.
  unfold frequent_values, value_counts. rewrite in_map_iff. split.
  - intros ([v' n] & Hfst & [Hin Hn]%filter_In). simpl in Hfst. subst v'.
    rewrite <- list_elem_of_In, merge_sort_Permutation, list_elem_of_In in Hin.
    apply in_map_iff in Hin as (w & [= -> <-] & Hw).
    split; [done|]. simpl in Hn. lia.
  - intros [Hin Hn]. exists (v, occurrences values v). split; [done|].
    apply filter_In. split; [|simpl; lia].
    rewrite <- list_elem_of_In, merge_sort_Permutation, list_elem_of_In.
    apply in_map_iff. by exists v.
Qed.

(** An entry is marked by some frequent value exactly when it is finite and
    frequent itself. *)
Lemma marked_by_frequency (values : list (option float64))
    (min_occurrences : Z) (x : option float64) :
  In x values ->
  existsb (fun v => marks v x) (frequent_values values min_occurrences) =
  match x with
  | Some (Finite q) =>
      (min_occurrences <=? Z.of_nat (occurrences values (Finite q)))%Z
  | _ => false
  end.
Proof.
  intros Hx. destruct x as [[q|n]|].
  - destruct (Z.leb_spec min_occurrences
                (Z.of_nat (occurrences values (Finite q)))) as [Hle|Hlt].
    + apply existsb_exists.
      destruct (distinct_values_represent values (Finite q) Hx)
        as (v & Hv & Hqv).
      exists v. split.
      * apply frequent_values_in. split; [done|].
        by rewrite <- (occurrences_congr values (Finite q) v Hqv).
      * destruct v as [w|k]; [|done]. done.
    + apply not_true_is_false. intros (v & Hv & Hqv)%existsb_exists.
      apply frequent_values_in in Hv as [_ Hn].
      destruct v as [w|k]; [|done]. simpl in Hqv.
      rewrite <- (occurrences_congr values (Finite q) (Finite w) Hqv) in Hn.
      lia.
  - apply not_true_is_false. intros (v & _ & Hv)%existsb_exists.
    by destruct v.
  - apply not_true_is_false. intros (v & _ & Hv)%existsb_exists.
    by destruct v.
Qed.

(** The loop computes the frequency mask of the finite values, whatever the
    precision threshold. *)
Lemma detect_series_finite (values : list (option float64))
    (min_occurrences precision_threshold : Z) :
  detect_series values min_occurrences precision_threshold =
  finite_by_frequency values min_occurrences.
Proof.
  unfold detect_series, finite_by_frequency. cbv zeta.
  assert (Hinit : replicate (length values) false =
                  map (fun _ : option float64 => false) values).
  { induction values as [|x vs IH]; simpl; [done|]. by rewrite IH. }
  rewrite Hinit, mark_all. apply map_ext_in. intros x Hx. simpl.
  by apply marked_by_frequency.
Qed.

Lemma float_series_values (df : DataFrame) (column : string) :
  float_series df column =
  map (fun r => numeric_value (cell_at r column)) (rows df).
Proof.
  unfold float_series. apply map_ext. intros r. apply cell_float_value.
Qed.

Lemma occurrences_finite (vs : list (option Q)) (q : Q) :
  occurrences (map (fmap Finite) vs) (Finite q) = frequency vs q.
Proof.
  unfold occurrences, frequency.
  rewrite <- (map_filter_comm (fmap Finite) (eq_val (Finite q))).
  rewrite length_map. f_equal. apply filter_ext. by intros [x|].
Qed.

Lemma frequency_values (df : DataFrame) (column : string) (q : Q) :
  frequency (float_series df column) q = value_frequency df column q.
Proof.
  unfold frequency, value_frequency. rewrite float_series_values.
  rewrite <- (map_filter_comm (fun r => numeric_value (cell_at r column))
                (fun x => match x with
                          | Some q0 => Qeq_bool q0 q
                          | None => false
                          end)).
  apply length_map.
Qed.

(** On a table, whose values are finite, the detector computes the
    frequency mask. *)
Lemma detect_is_by_frequency (df : DataFrame) (column : string)
    (min_occurrences precision_threshold : Z) :
  detect_suspicious_duplicates df column min_occurrences precision_threshold
  = detect_by_frequency df column min_occurrences.
Proof.
  unfold detect_suspicious_duplicates, detect_by_frequency.
  case_bool_decide; [|done]. cbv zeta.
  rewrite detect_series_finite. unfold finite_by_frequency, detector_values.
  rewrite map_map. apply map_ext. intros [q|]; simpl; [|done].
  by rewrite occurrences_finite.
Qed.

(** C8, amended.  On every series the detector returns a mask with one
    entry per entry of the series, in order, and an entry is true exactly
    when its value is not missing, is finite, and occurs at least
    [min_occurrences] times in the series, whatever the precision threshold;
    a missing value and an infinite value are never marked.  On a table,
    whose cells are finite, the mask has one entry per row, and a row is
    marked exactly when the column is present, the coerced value of its
    cell is a number, and that number is the coerced value of at least
    [min_occurrences] rows. *)
Theorem detect_marks_frequent (min_occurrences precision_threshold : Z) :
  (forall values : list (option float64),
     let mask := detect_series values min_occurrences precision_threshold in
     length mask = length values /\
     (forall i b, mask !! i = Some b ->
        (b = true <->
         exists q, values !! i = Some (Some (Finite q)) /\
           (min_occurrences <= Z.of_nat (occurrences values (Finite q)))%Z)) /\
     (forall i, values !! i = Some None -> mask !! i = Some false) /\
     (forall i negative, values !! i = Some (Some (Infinite negative)) ->
        mask !! i = Some false)) /\
  (forall (df : DataFrame) (column : string),
     let mask := detect_suspicious_duplicates df column min_occurrences
                   precision_threshold in
     length mask = length (rows df) /\
     (forall i r b, rows df !! i = Some r -> mask !! i = Some b ->
        (b = true <->
         column ∈ columns df /\
         exists q, numeric_value (cell_at r column) = Some q /\
           (min_occurrences <= Z.of_nat (value_frequency df column q))%Z))).
Proof.
  split.
  - intros values. cbv zeta. rewrite detect_series_finite.
    unfold finite_by_frequency. split; [|split; [|split]].
    + apply length_map.
    + intros i b. rewrite list_lookup_fmap.
      destruct (values !! i) as [[[q|n]|]|] eqn:Hi; simpl; [| | |done];
        intros [= <-].
      * rewrite Z.leb_le. split; [eauto|].
        by intros (q' & [= <-] & Hle).
      * split; [done|]. by intros (q' & ? & _).
      * split; [done|]. by intros (q' & ? & _).
    + intros i Hi. by rewrite list_lookup_fmap, Hi.
    + intros i n Hi. by rewrite list_lookup_fmap, Hi.
  - intros df column. cbv zeta. rewrite detect_is_by_frequency.
    unfold detect_by_frequency. case_bool_decide as Hin; cbv zeta.
    + split; [unfold float_series; by rewrite !length_map|].
      intros i r b Hr. rewrite list_lookup_fmap, float_series_values.
      rewrite list_lookup_fmap, Hr. simpl.
      rewrite <- float_series_values.
      destruct (numeric_value (cell_at r column)) as [q|]; intros [= <-].
      * rewrite Z.leb_le, frequency_values. split; [eauto|].
        by intros (_ & q' & [= <-] & Hle).
      * split; [done|]. by intros (_ & q' & ? & _).
    + split; [apply length_replicate|].
      intros i r b _ [-> _]%lookup_replicate. split; [done|]. by intros [? _].
Qed.

(** C9, amended.  The mask does not depend on the precision threshold: any
    two thresholds give the same mask, on a table and on a series.  The
    detector is extensionally the frequency-only detector restricted to the
    finite values, which has no precision parameter; it is the
    frequency-only detector itself on every series that holds no
    infinity. *)
Theorem detect_ignores_precision (df : DataFrame) (column : string)
    (min_occurrences : Z) :
  (forall precision_threshold precision_threshold',
     detect_suspicious_duplicates df column min_occurrences precision_threshold
     = detect_suspicious_duplicates df column min_occurrences
         precision_threshold') /\
  (forall values precision_threshold precision_threshold',
     detect_series values min_occurrences precision_threshold
     = detect_series values min_occurrences precision_threshold') /\
  (forall values precision_threshold,
     detect_series values min_occurrences precision_threshold
     = finite_by_frequency values min_occurrences) /\
  (forall values precision_threshold,
     (forall negative, ~ In (Some (Infinite negative)) values) ->
     detect_series values min_occurrences precision_threshold
     = by_frequency values min_occurrences).
Proof.
  split; [|split; [|split]].
  - intros p p'. by rewrite !detect_is_by_frequency.
  - intros values p p'. by rewrite !detect_series_finite.
  - intros values p. apply detect_series_finite.
  - intros values p Hfin. rewrite detect_series_finite.
    unfold finite_by_frequency, by_frequency. apply map_ext_in.
    intros [[q|n]|] Hx; [done| |done]. by destruct (Hfin n).
Qed.

(** ** Risk Aggregator *)

Lemma feature_numeric (c : cell) :
  (forall s, c <> CText s) -> is_Some (feature c).
Proof. destruct c as [q| |s]; simpl; eauto. intros H. by destruct (H s). Qed.

Lemma numeric_cell_numeric (c : cell) :
  (forall s, c <> CText s) -> is_Some (numeric_cell c).
Proof. destruct c as [q| |s]; simpl; eauto. intros H. by destruct (H s). Qed.

Lemma isolation_forest_scores_returns (df : DataFrame) :
  numeric_cells df -> rows df <> [] -> is_Some (isolation_forest_scores df).
Proof.
  intros Hnum Hrows. unfold isolation_forest_scores.
  set (num_cols := List.filter _ NUMERIC_CANDIDATES).
  assert (Hcols : forall c, In c num_cols -> In c NUMERIC_CANDIDATES).
  { intros c Hc. by apply filter_In in Hc as [? _]. }
  destruct num_cols as [|c0 cs] eqn:Hnc; [done|]. rewrite <- Hnc in *.
  destruct (mapM_is_Some_2
              (fun r => mapM (fun c => feature (cell_at r c)) num_cols)
              (rows df)) as [X HX].
  { apply Forall_forall. intros r Hr%list_elem_of_In. simpl.
    apply mapM_is_Some_2, Forall_forall. intros c Hc%list_elem_of_In. simpl.
    apply feature_numeric. intros s. by apply Hnum, Hcols. }
  rewrite HX. simpl. apply length_mapM in HX.
  destruct X as [|x X]; [by destruct (rows df)|]. done.
Qed.

Lemma category_amount_zscores_returns (df : DataFrame) (category_col : string) :
  numeric_cells df ->
  is_Some (category_amount_zscores df category_col "claim_amount").
Proof.
  intros Hnum. unfold category_amount_zscores.
  destruct (_ || _); [done|].
  assert (Hamt : forall r, In r (rows df) ->
            is_Some (numeric_cell (cell_at r "claim_amount"))).
  { intros r Hr. apply numeric_cell_numeric. intros s.
    apply Hnum; [done|]. by left. }
  apply mapM_is_Some_2, Forall_forall. intros r Hr%list_elem_of_In. simpl.
  unfold transform_row. cbv zeta.
  destruct (isna _); [done|].
  destruct (mapM_is_Some_2
              (fun r' => numeric_cell (cell_at r' "claim_amount"))
              (group_rows df category_col (cell_at r category_col)))
    as [s Hs].
  { apply Forall_forall. intros r' Hr'%list_elem_of_In. simpl.
    apply Hamt. by apply filter_In in Hr' as [? _]. }
  rewrite Hs. simpl. destruct (Hamt r Hr) as [x ->]. done.
Qed.

(** The aggregator returns a scored table for every frame that has a row
    and no text in its numeric columns. *)
Lemma flag_anomalies_returns (df : DataFrame)
    (iforest_weight zscore_weight z_threshold score_threshold : Q) :
  numeric_cells df -> rows df <> [] ->
  is_Some (flag_anomalies df iforest_weight zscore_weight z_threshold
             score_threshold).
Proof.
  intros Hnum Hrows. unfold flag_anomalies.
  destruct (isolation_forest_scores_returns df Hnum Hrows) as [iforest ->].
  simpl.
  match goal with
  | |- is_Some (mapM ?f ?l ≫= _) =>
      destruct (mapM_is_Some_2 f l) as [zc Hzc]
  end.
  { apply Forall_forall. intros cat _. simpl.
    by destruct (category_amount_zscores_returns df cat Hnum) as [zs ->]. }
  rewrite Hzc. done.
Qed.


Lemma scored_deviations (l : list record) (z : list (option Q))
    (f : nat -> record -> option Q -> ScoredRow) :
  length z = length l ->
  (forall i r zi, anomaly_z (f i r zi) = zi) ->
  map anomaly_z (imap (fun i r => f i r (default None (z !! i))) l) = z.
Proof.
  intros Hlen Hf. apply list_eq. intros i.
  rewrite list_lookup_fmap, list_lookup_imap.
  destruct (l !! i) as [r|] eqn:Hl; simpl.
  - rewrite Hf. apply lookup_lt_Some in Hl. rewrite <- Hlen in Hl.
    apply lookup_lt_is_Some in Hl as [zi Hzi]. by rewrite Hzi.
  - symmetry. apply lookup_ge_None. apply lookup_ge_None in Hl. lia.
Qed.

Lemma reason_of_cases (a : Q) (z : option Q) (z_threshold score_threshold : Q) :
  reason_of a z z_threshold score_threshold =
    match fge (Some a) score_threshold, fge z z_threshold with
    | true, true => "IsolationForest outlier, Category z-score high"
    | true, false => "IsolationForest outlier"
    | false, true => "Category z-score high"
    | false, false => "—"
    end%string.
Proof.
  unfold reason_of.
  by destruct (fge (Some a) score_threshold), (fge z z_threshold).
Qed.

Lemma isolation_forest_scores_length (df : DataFrame) (scores : list Q) :
  isolation_forest_scores df = Some scores ->
  length scores = length (rows df).
Proof.
  unfold isolation_forest_scores.
  destruct (List.filter _ NUMERIC_CANDIDATES) as [|c0 cs].
  { intros [= <-]. apply length_replicate. }
  intros (X & HX & H)%bind_Some.
  destruct (map (decision_function X) (seq 0 (length X))) as [|d ds] eqn:Hdec;
    [done|].
  assert (Hn : length (d :: ds) = length (rows df)).
  { rewrite <- Hdec, length_map, length_seq.
    symmetry. by apply length_mapM in HX. }
  injection H as <-. simpl in *. by rewrite length_map.
Qed.

Lemma Forall2_fmap_Some {A B C} (f : A -> option B) (g : B -> C)
    (l : list A) (k : list C) :
  Forall2 (fun x y => g <$> f x = Some y) l k ->
  exists zs, Forall2 (fun x z => f x = Some z) l zs /\ k = map g zs.
Proof.
  induction 1 as [|x y l k Hxy _ (zs & Hzs & ->)].
  - exists []. by split; [constructor|].
  - apply fmap_Some in Hxy as (z & Hz & ->).
    exists (z :: zs). by split; [constructor|].
Qed.

Lemma replicate_map_seq {A} (n : nat) (x : A) :
  replicate n x = map (fun _ => x) (seq 0 n).
Proof.
  generalize 0%nat. induction n as [|n IH]; intros k; simpl; [done|].
  by rewrite <- IH.
Qed.

(** The deviation column is the series of the raw deviations. *)
Lemma anomaly_z_series_raw (n : nat) (zscores : list (list (option Q))) :
  anomaly_z_series n (map (map (fmap Qabs)) zscores) =
  map (raw_deviation zscores) (seq 0 n).
Proof.
  unfold anomaly_z_series, raw_deviation.
  destruct zscores as [|zs zss]; [apply replicate_map_seq|].
  change (map (map (fmap Qabs)) (zs :: zss))
    with (map (fmap Qabs) zs :: map (map (fmap Qabs)) zss).
  cbv iota.
  change (map (fmap Qabs) zs :: map (map (fmap Qabs)) zss)
    with (map (map (fmap Qabs)) (zs :: zss)).
  apply map_ext. intros i.
  rewrite map_map. f_equal. apply map_ext. intros z.
  rewrite list_lookup_fmap. by destruct (z !! i).
Qed.

(** One row of the scored table in terms of what the two scorers return:
    the outlier score and the raw deviation of the row are the scorers'
    values, and the deviation column holds the raw deviations of all
    rows. *)
Lemma flag_anomalies_row (df : DataFrame)
    (iforest_weight zscore_weight z_threshold score_threshold : Q)
    (out : list ScoredRow) (i : nat) (row : ScoredRow) :
  flag_anomalies df iforest_weight zscore_weight z_threshold score_threshold
  = Some out ->
  out !! i = Some row ->
  exists (iforest : list Q) (zscores : list (list (option Q)))
         (r : record) (a : Q),
    isolation_forest_scores df = Some iforest /\
    Forall2 (fun cat zs =>
               category_amount_zscores df cat "claim_amount" = Some zs)
      (List.filter (fun cat => bool_decide (cat ∈ columns df)) CATEGORY_PIVOTS)
      zscores /\
    rows df !! i = Some r /\
    iforest !! i = Some a /\
    map anomaly_z out =
      map (raw_deviation zscores) (seq 0 (length (rows df))) /\
    let d := raw_deviation zscores i in
    row = mkScoredRow r a d
            (fadd (fmul (Some iforest_weight) (Some a))
                  (fmul (Some zscore_weight)
                     (fdiv (fillna0 d)
                        (py_max (nanmax (map anomaly_z out)) 1))))
            (reason_of a d z_threshold score_threshold)
            (fge (Some a) score_threshold || fge d z_threshold).
Proof.
  unfold flag_anomalies. intros H Hrow.
  apply bind_Some in H as (iforest & Hif & H).
  apply bind_Some in H as (zcomponents & Hz & H).
  apply mapM_Some in Hz.
  apply (Forall2_fmap_Some
           (fun cat => category_amount_zscores df cat "claim_amount")
           (map (fmap Qabs))) in Hz as (zscores & Hzs & ->).
  rewrite anomaly_z_series_raw in H.
  set (z := map (raw_deviation zscores) (seq 0 (length (rows df)))) in *.
  assert (Hlen : length z = length (rows df))
    by (unfold z; by rewrite length_map, length_seq).
  injection H as Hout.
  assert (Hsd : map anomaly_z out = z).
  { rewrite <- Hout.
    by apply (scored_deviations (rows df) z
                (fun i r zi =>
                   let a := default 0 (iforest !! i) in
                   mkScoredRow r a zi
                     (fadd (fmul (Some iforest_weight) (fillna0 (Some a)))
                        (fmul (Some zscore_weight)
                           (fdiv (fillna0 zi) (py_max (nanmax z) 1))))
                     (reason_of a zi z_threshold score_threshold)
                     (fge (Some a) score_threshold || fge zi z_threshold))). }
  rewrite <- Hout, list_lookup_imap in Hrow.
  destruct (rows df !! i) as [r|] eqn:Hr; [|done]. simpl in Hrow.
  pose proof (lookup_lt_Some _ _ _ Hr) as Hi.
  assert (Hzi : z !! i = Some (raw_deviation zscores i)).
  { unfold z. rewrite list_lookup_fmap, lookup_seq_lt by done. done. }
  destruct (lookup_lt_is_Some_2 iforest i) as [a Ha].
  { by rewrite (isolation_forest_scores_length df iforest Hif). }
  rewrite Hzi, Ha in Hrow. simpl in Hrow. injection Hrow as <-.
  exists iforest, zscores, r, a. rewrite Hsd. done.
Qed.

(** C3. In the scored table the outlier score of a row is the score the
    outlier scorer returns for it and its deviation is the raw deviation
    computed from the z-scores the category scorer returns (their absolute
    values averaged over the pivot columns present, not divided by the
    maximum of the batch).  Every row is flagged exactly when that outlier
    score reaches the score threshold or that raw deviation reaches the z
    threshold; the reason is the empty marker exactly when the row is not
    flagged; and the reason of a flagged row joins with a comma and a space
    the outlier text and the deviation text of the conditions that hold, in
    that order. *)
Theorem flagged_matches_reason (df : DataFrame)
    (iforest_weight zscore_weight z_threshold score_threshold : Q)
    (out : list ScoredRow) (i : nat) (row : ScoredRow) :
  flag_anomalies df iforest_weight zscore_weight z_threshold score_threshold
  = Some out ->
  out !! i = Some row ->
  let by_outlier := Qle_bool score_threshold (anomaly_iforest row) in
  let by_deviation :=
    match anomaly_z row with
    | Some d => Qle_bool z_threshold d
    | None => false
    end in
  (exists (iforest : list Q) (zscores : list (list (option Q))),
     isolation_forest_scores df = Some iforest /\
     Forall2 (fun cat zs =>
                category_amount_zscores df cat "claim_amount" = Some zs)
       (List.filter (fun cat => bool_decide (cat ∈ columns df))
          CATEGORY_PIVOTS)
       zscores /\
     iforest !! i = Some (anomaly_iforest row) /\
     anomaly_z row = raw_deviation zscores i) /\
  flagged row = by_outlier || by_deviation /\
  (risk_reason row = "—"%string <-> flagged row = false) /\
  (flagged row = true ->
   risk_reason row =
     join ", " ((if by_outlier then ["IsolationForest outlier"%string] else [])
                ++ (if by_deviation then ["Category z-score high"%string]
                    else []))).
Proof.
  intros Hout Hrow.
  destruct (flag_anomalies_row _ _ _ _ _ _ _ _ Hout Hrow)
    as (iforest & zscores & r & a & Hif & Hzs & _ & Ha & _ & ->).
  cbv zeta. simpl. split; [by exists iforest, zscores|].
  rewrite reason_of_cases. unfold fge.
  set (b1 := Qle_bool score_threshold a).
  set (b2 := match raw_deviation zscores i with
             | Some v => Qle_bool z_threshold v
             | None => false
             end).
  by destruct b1, b2.
Qed.

Lemma running_max_upper (v : Q) (vs : list Q) :
  let M := foldr (fun x acc => if Qlt_le_dec acc x then x else acc) v vs in
  v <= M /\ forall x, In x vs -> x <= M.
Proof.
  cbv zeta. induction vs as [|a vs [IHv IHvs]]; simpl.
  - split; [lra|done].
  - destruct (Qlt_le_dec _ a) as [Hlt|Hle].
    + split; [lra|]. intros x [<-|Hx]; [lra|].
      specialize (IHvs x Hx). lra.
    + split; [done|]. intros x [<-|Hx]; [done|]. by apply IHvs.
Qed.

Lemma dropna_in (s : list (option Q)) (x : Q) :
  In x (dropna s) <-> In (Some x) s.
Proof.
  unfold dropna. rewrite <- !list_elem_of_In, list_elem_of_omap. split.
  - intros (y & Hy & Hid). simpl in Hid. by subst y.
  - intros Hx. by exists (Some x).
Qed.

Lemma nanmax_upper (s : list (option Q)) (x : Q) :
  In (Some x) s -> exists M, nanmax s = Some M /\ x <= M.
Proof.
  intros Hx%dropna_in. unfold nanmax.
  destruct (dropna s) as [|v vs]; [done|].
  eexists. split; [done|].
  destruct (running_max_upper v vs) as [Hv Hvs].
  destruct Hx as [<-|Hx]; [done|]. by apply Hvs.
Qed.

(** C7. In the scored table the outlier score of a row is the score the
    outlier scorer returns for it, its deviation is the raw deviation
    computed from the z-scores the category scorer returns, and the
    deviation column holds the raw deviations of all rows.  The risk score
    of every row is
    [iforest_weight * outlier_score + zscore_weight * (deviation / divisor)]
    where the divisor is Python's [max] of the batch maximum of the
    deviations and 1.0, a missing deviation counts as 0 in the quotient and
    the outlier score enters as it is.  For a row whose deviation is a
    number [d], the batch maximum [M] exists and bounds every deviation of
    the table, and the score is the number
    [iforest_weight * outlier_score + zscore_weight * (d / M')] with
    [M' = 1] when [M < 1] and [M' = M] otherwise. *)
Theorem risk_score_formula (df : DataFrame)
    (iforest_weight zscore_weight z_threshold score_threshold : Q)
    (out : list ScoredRow) (i : nat) (row : ScoredRow) :
  flag_anomalies df iforest_weight zscore_weight z_threshold score_threshold
  = Some out ->
  out !! i = Some row ->
  let batch_max := nanmax (map anomaly_z out) in
  (exists (iforest : list Q) (zscores : list (list (option Q))),
     isolation_forest_scores df = Some iforest /\
     Forall2 (fun cat zs =>
                category_amount_zscores df cat "claim_amount" = Some zs)
       (List.filter (fun cat => bool_decide (cat ∈ columns df))
          CATEGORY_PIVOTS)
       zscores /\
     iforest !! i = Some (anomaly_iforest row) /\
     anomaly_z row = raw_deviation zscores i /\
     map anomaly_z out =
       map (raw_deviation zscores) (seq 0 (length (rows df)))) /\
  risk_score row =
    fadd (fmul (Some iforest_weight) (Some (anomaly_iforest row)))
         (fmul (Some zscore_weight)
            (fdiv (fillna0 (anomaly_z row)) (py_max batch_max 1))) /\
  forall d, anomaly_z row = Some d ->
    exists M,
      batch_max = Some M /\
      (forall j row' d', out !! j = Some row' -> anomaly_z row' = Some d' ->
         d' <= M) /\
      risk_score row =
        Some (iforest_weight * anomaly_iforest row +
              zscore_weight * (d / (if Qlt_le_dec M 1 then 1 else M))).
Proof.
  intros Hout Hrow.
  destruct (flag_anomalies_row _ _ _ _ _ _ _ _ Hout Hrow)
    as (iforest & zscores & r & a & Hif & Hzs & _ & Ha & Hdev & Hfields).
  cbv zeta in *.
  assert (Hz : forall j row' d',
            out !! j = Some row' -> anomaly_z row' = Some d' ->
            In (Some d') (map anomaly_z out)).
  { intros j row' d' Hj Hd'. apply in_map_iff. exists row'.
    split; [done|]. apply list_elem_of_In, list_elem_of_lookup. eauto. }
  split; [exists iforest, zscores; by subst row|].
  split; [by subst row|].
  intros d Hd.
  destruct (nanmax_upper _ d (Hz i row d Hrow Hd)) as (M & HM & _).
  exists M. split; [done|]. split.
  - intros j row' d' Hj Hd'.
    destruct (nanmax_upper _ d' (Hz j row' d' Hj Hd')) as (M' & HM' & Hle).
    rewrite HM in HM'. by injection HM' as <-.
  - rewrite Hfields in Hd |- *. simpl in Hd |- *. rewrite Hd, HM. simpl.
    by destruct (Qlt_le_dec M 1).
Qed.

(** ** Category Deviation Scorer *)






(** * Further properties of the engine *)

(** ** The cleaner and the rest of the table *)

Lemma coerced_row_origin (df : DataFrame) (column : string) (r' : record) :
  In r' (rows (coerce_column df column)) ->
  exists r, In r (rows df) /\
    r' = <[column := to_float_cell (cell_at r column)]> r.
Proof. simpl. intros (r & <- & Hr)%in_map_iff. eauto. Qed.

Lemma impute_row_lookup_other (min_val max_val : option Q)
    (column other : string) (v : Q) (r : record) :
  other <> column ->
  impute_row min_val max_val column v r !! other = r !! other.
Proof.
  intros Hne. unfold impute_row.
  destruct (valid_cell min_val max_val (cell_at r column)); [done|].
  by rewrite lookup_insert_ne.
Qed.

(** X1. Whatever the policy, the cleaner keeps the column labels, and every
    returned row comes from an input row with which it agrees on every
    column other than the cleaned one. *)
Theorem clean_touches_one_column (df : DataFrame) (column method : string)
    (min_val max_val : option Q) (round_to_int : bool) :
  let res := handle_numeric_outliers df column method min_val max_val
               round_to_int in
  columns res.1.1 = columns df /\
  forall r', In r' (rows res.1.1) ->
    exists r, In r (rows df) /\
      forall other, other <> column -> r' !! other = r !! other.
Proof.
  cbv zeta. split; [apply columns_preserved|].
  assert (Hco : forall r', In r' (rows (coerce_column df column)) ->
            exists r, In r (rows df) /\
              forall other, other <> column -> r' !! other = r !! other).
  { intros r' (r & Hr & ->)%coerced_row_origin. exists r. split; [done|].
    intros other Hne. by rewrite lookup_insert_ne. }
  destruct (decide (column ∈ columns df)) as [Hin|Hnin]; cycle 1.
  { rewrite handle_numeric_outliers_absent by done. simpl. eauto. }
  rewrite handle_numeric_outliers_present by done. cbv zeta.
  destruct (_ =? 0)%nat; [done|].
  destruct (String.eqb method "leave"); [done|].
  destruct (String.eqb method "exclude"); simpl.
  - intros r' [Hr' _]%filter_In. by apply Hco.
  - intros r' (r0 & <- & Hr0)%in_map_iff.
    destruct (Hco r0 Hr0) as (r & Hr & Hsame). exists r. split; [done|].
    intros other Hne. rewrite impute_row_lookup_other by done.
    by apply Hsame.
Qed.

(** X2. The imputing policy, when it imputes, keeps every row and leaves no
    missing value in the column: every returned cell of the column is a
    number. *)
Theorem impute_leaves_no_missing (df : DataFrame) (column method : string)
    (min_val max_val : option Q) (round_to_int : bool) :
  column ∈ columns df ->
  invalid_count df column min_val max_val <> 0%nat ->
  String.eqb method "leave" = false ->
  String.eqb method "exclude" = false ->
  let res := handle_numeric_outliers df column method min_val max_val
               round_to_int in
  length (rows res.1.1) = length (rows df) /\
  forall r', In r' (rows res.1.1) -> exists q, cell_at r' column = CNum q.
Proof.
  intros Hin Hnz Hleave Hexcl. cbv zeta.
  rewrite handle_numeric_outliers_present by done. cbv zeta.
  apply Nat.eqb_neq in Hnz. rewrite Hnz, Hleave, Hexcl. simpl. split.
  - by rewrite !length_map.
  - intros r' (r0 & <- & Hr0)%in_map_iff. rewrite impute_row_cell.
    destruct (valid_cell min_val max_val (cell_at r0 column)) eqn:Hv; [|eauto].
    apply valid_cell_in_bounds in Hv as (q & -> & _). eauto.
Qed.

Lemma cleaned_rows_settled (df : DataFrame) (column method : string)
    (min_val max_val : option Q) (round_to_int : bool) :
  column ∈ columns df ->
  forall r, In r (rows (handle_numeric_outliers df column method min_val
                          max_val round_to_int).1.1) ->
    settled_row column r.
Proof.
  intros Hin.
  assert (Hco : forall r, In r (rows (coerce_column df column)) ->
            settled_row column r).
  { intros r' (r & Hr & ->)%coerced_row_origin. eexists.
    rewrite lookup_insert_eq. split; [done|]. apply to_float_cell_idem. }
  rewrite handle_numeric_outliers_present by done. cbv zeta.
  destruct (_ =? 0)%nat; [done|].
  destruct (String.eqb method "leave"); [done|].
  destruct (String.eqb method "exclude"); simpl.
  - intros r [Hr _]%filter_In. by apply Hco.
  - intros r' (r0 & <- & Hr0)%in_map_iff. unfold impute_row.
    destruct (valid_cell _ _ _); [by apply Hco|].
    eexists. by rewrite lookup_insert_eq.
Qed.

Lemma coerce_settled (df : DataFrame) (column : string) :
  (forall r, In r (rows df) -> settled_row column r) ->
  coerce_column df column = df.
Proof.
  intros H. destruct df as [cols rs]. unfold coerce_column. simpl in *.
  f_equal. induction rs as [|r rs IH]; simpl; [done|].
  rewrite IH by (intros; apply H; by right). f_equal.
  destruct (H r) as (c & Hc & Hfix); [by left|].
  unfold cell_at. rewrite Hc. simpl. rewrite Hfix. by apply insert_id.
Qed.

(** X3. A table returned by the policy [exclude], or by the imputing policy
    with an imputed value within the bounds, is a fixed point of the
    cleaner: cleaning it again with the same bounds, under any policy,
    returns the very same table, count 0 and no imputed value. *)
Theorem clean_twice_same_table (df : DataFrame)
    (column method method' : string) (min_val max_val : option Q)
    (round_to_int round_to_int' : bool) :
  let res := handle_numeric_outliers df column method min_val max_val
               round_to_int in
  String.eqb method "exclude" = true \/
  (String.eqb method "leave" = false /\
   forall v, res.2 = Some v -> in_bounds min_val max_val v) ->
  handle_numeric_outliers res.1.1 column method' min_val max_val round_to_int'
  = (res.1.1, 0%nat, None).
Proof.
  cbv zeta. intros Hm.
  destruct (decide (column ∈ columns df)) as [Hin|Hnin]; cycle 1.
  { rewrite (handle_numeric_outliers_absent df) by done. simpl.
    by rewrite handle_numeric_outliers_absent. }
  pose proof (reclean_affected_zero df column method method' min_val max_val
                round_to_int round_to_int' Hm) as Hz.
  rewrite affected_count_eq in Hz by (by rewrite columns_preserved).
  rewrite handle_numeric_outliers_present by (by rewrite columns_preserved).
  cbv zeta. rewrite Hz. simpl. f_equal. f_equal.
  apply coerce_settled. by apply cleaned_rows_settled.
Qed.

(** X4. The count the cleaner reports depends neither on the policy nor on
    the rounding flag: the audit count of [leave] is the count reported
    under any other policy for the same column and bounds. *)
Theorem affected_count_policy_independent (df : DataFrame)
    (column method method' : string) (min_val max_val : option Q)
    (round_to_int round_to_int' : bool) :
  (handle_numeric_outliers df column method min_val max_val round_to_int).1.2
  = (handle_numeric_outliers df column method' min_val max_val
       round_to_int').1.2.
Proof.
  destruct (decide (column ∈ columns df)) as [Hin|Hnin].
  - by rewrite !affected_count_eq.
  - by rewrite !handle_numeric_outliers_absent.
Qed.

(** ** More on the Duplicate-Value Detector *)

(** One entry of the frequency mask. *)
Lemma detect_lookup (df : DataFrame) (column : string)
    (min_occurrences precision_threshold : Z) (i : nat) :
  column ∈ columns df ->
  detect_suspicious_duplicates df column min_occurrences precision_threshold
    !! i =
  (fun x => match x with
            | Some q => (min_occurrences <=?
                         Z.of_nat (frequency (float_series df column) q))%Z
            | None => false
            end) <$> float_series df column !! i.
Proof.
  intros Hin. rewrite detect_is_by_frequency. unfold detect_by_frequency.
  rewrite bool_decide_eq_true_2 by done. cbv zeta.
  by rewrite list_lookup_fmap.
Qed.

(** X5. Raising [min_occurrences] can only unmark rows: a row marked at a
    threshold is marked at every lower threshold. *)
Theorem detect_monotone (df : DataFrame) (column : string)
    (min_occurrences min_occurrences' precision_threshold : Z) (i : nat) :
  (min_occurrences <= min_occurrences')%Z ->
  detect_suspicious_duplicates df column min_occurrences' precision_threshold
    !! i = Some true ->
  detect_suspicious_duplicates df column min_occurrences precision_threshold
    !! i = Some true.
Proof.
  intros Hle. destruct (decide (column ∈ columns df)) as [Hin|Hnin].
  - rewrite !detect_lookup by done.
    destruct (float_series df column !! i) as [[q|]|]; simpl; try done.
    intros [= H%Z.leb_le]. f_equal. apply Z.leb_le. lia.
  - unfold detect_suspicious_duplicates.
    rewrite bool_decide_eq_false_2 by done.
    by intros [? _]%lookup_replicate.
Qed.

Lemma filter_length_le {A} (p p' : A -> bool) (l : list A) :
  (forall x, In x l -> p x = true -> p' x = true) ->
  (length (List.filter p l) <= length (List.filter p' l))%nat.
Proof.
  induction l as [|a l IH]; intros H; simpl; [done|].
  assert (length (List.filter p l) <= length (List.filter p' l))%nat.
  { apply IH. intros x Hx. apply H. by right. }
  destruct (p a) eqn:Hp.
  - rewrite (H a) by (done || by left). simpl. lia.
  - destruct (p' a); simpl; lia.
Qed.

Lemma count_true_map {A} (g : A -> bool) (l : list A) :
  count_true (map g l) = length (List.filter g l).
Proof.
  unfold count_true. induction l as [|a l IH]; simpl; [done|].
  destruct (g a); simpl; by rewrite IH.
Qed.

(** X6. When the detector marks a row at all, it marks at least
    [min_occurrences] rows: the number of marked rows is never between 1 and
    [min_occurrences - 1]. *)
Theorem detect_marked_count (df : DataFrame) (column : string)
    (min_occurrences precision_threshold : Z) (i : nat) :
  let mask := detect_suspicious_duplicates df column min_occurrences
                precision_threshold in
  mask !! i = Some true ->
  (min_occurrences <= Z.of_nat (count_true mask))%Z.
Proof.
  cbv zeta. rewrite detect_is_by_frequency. unfold detect_by_frequency.
  case_bool_decide; cbv zeta; [|by intros [? _]%lookup_replicate].
  set (values := float_series df column).
  rewrite list_lookup_fmap, count_true_map.
  destruct (values !! i) as [[q|]|] eqn:Hi; simpl; try done.
  intros [= Hq%Z.leb_le].
  assert (frequency values q <=
          length (List.filter
                    (fun x => match x with
                              | Some q0 => (min_occurrences <=?
                                            Z.of_nat (frequency values q0))%Z
                              | None => false
                              end) values))%nat; [|lia].
  unfold frequency at 1. apply filter_length_le.
  intros [q0|] _; simpl; [|done]. intros Heq.
  rewrite (frequency_congr values q0 q Heq). by apply Z.leb_le.
Qed.

Lemma drop_marked_rows {A} (h : A -> bool) (l : list A) :
  map fst (List.filter (fun p : A * bool => negb p.2) (zip l (map h l)))
  = List.filter (fun x => negb (h x)) l.
Proof.
  induction l as [|a l IH]; simpl; [done|].
  destruct (h a); simpl; by rewrite IH.
Qed.

Lemma filter_filter_length {A} (p q : A -> bool) (l : list A) :
  (length (List.filter p (List.filter q l)) <= length (List.filter p l))%nat.
Proof.
  induction l as [|a l IH]; simpl; [done|].
  destruct (q a); simpl; destruct (p a); simpl; lia.
Qed.

(** X7. After the rows the detector marks have been dropped, as the
    interactive surface does under "Exclude rows", the detector marks no row
    of what is left, at the same [min_occurrences] and any precision. *)
Theorem redetect_after_drop (df : DataFrame) (column : string)
    (min_occurrences precision_threshold precision_threshold' : Z) :
  let kept := drop_marked df
                (detect_suspicious_duplicates df column min_occurrences
                   precision_threshold) in
  count_true (detect_suspicious_duplicates kept column min_occurrences
                precision_threshold') = 0%nat.
Proof.
  cbv zeta. rewrite !detect_is_by_frequency. unfold detect_by_frequency.
  simpl columns. case_bool_decide; cbv zeta; cycle 1.
  { unfold count_true. apply filter_none_length.
    by intros b [-> _]%list_elem_of_In%elem_of_replicate. }
  set (g := fun x : option Q =>
              match x with
              | Some q => (min_occurrences <=?
                           Z.of_nat (frequency (float_series df column) q))%Z
              | None => false
              end).
  assert (Hkept :
    float_series (drop_marked df (map g (float_series df column))) column
    = List.filter (fun x => negb (g x)) (float_series df column)).
  { unfold float_series, drop_marked. simpl rows.
    rewrite (map_map (fun r => cell_float (to_float_cell (cell_at r column)))
               g (rows df)).
    rewrite (drop_marked_rows
               (fun r => g (cell_float (to_float_cell (cell_at r column))))).
    apply (map_filter_comm
             (fun r => cell_float (to_float_cell (cell_at r column)))
             (fun x => negb (g x))). }
  rewrite Hkept, count_true_map. apply filter_none_length.
  intros [q|] Hx; [|done]. apply filter_In in Hx as [_ Hg].
  apply negb_true_iff in Hg. simpl in Hg. apply Z.leb_gt in Hg.
  apply Z.leb_gt.
  pose proof (filter_filter_length
                (fun x : option Q =>
                   match x with Some q0 => Qeq_bool q0 q | None => false end)
                (fun x => negb (g x)) (float_series df column)) as Hle.
  unfold frequency in *. lia.
Qed.

(** ** The cleaning stage of the interactive surface *)

Lemma clean_row_balance (df : DataFrame) (column method : string)
    (min_val max_val : option Q) (round_to_int : bool) :
  let res := handle_numeric_outliers df column method min_val max_val
               round_to_int in
  (length (rows res.1.1) +
   (if String.eqb method "exclude" then res.1.2 else 0)
   = length (rows df))%nat.
Proof.
  cbv zeta. destruct (decide (column ∈ columns df)) as [Hin|Hnin]; cycle 1.
  { rewrite handle_numeric_outliers_absent by done. simpl.
    destruct (String.eqb method "exclude"); lia. }
  rewrite handle_numeric_outliers_present by done. cbv zeta.
  assert (Hlen : length (rows (coerce_column df column)) = length (rows df))
    by (simpl; apply length_map).
  destruct (Nat.eqb_spec (invalid_count df column min_val max_val) 0)
    as [Hz|Hnz].
  { cbn [fst snd]. destruct (String.eqb method "exclude"); lia. }
  destruct (String.eqb method "leave") eqn:Hleave.
  { apply String.eqb_eq in Hleave. subst method. cbn [fst snd].
    change (String.eqb "leave" "exclude") with false. cbv iota. lia. }
  destruct (String.eqb method "exclude"); cbn [fst snd rows].
  - unfold invalid_count.
    rewrite (filter_ext _ _ (fun r => kept_not_affected min_val max_val
                                        (cell_at r column))).
    rewrite filter_split_length. apply Hlen.
  - rewrite length_map. lia.
Qed.

Lemma detect_length (df : DataFrame) (column : string)
    (min_occurrences precision_threshold : Z) :
  length (detect_suspicious_duplicates df column min_occurrences
            precision_threshold) = length (rows df).
Proof.
  rewrite detect_is_by_frequency. unfold detect_by_frequency.
  case_bool_decide; cbv zeta.
  - unfold float_series. by rewrite !length_map.
  - apply length_replicate.
Qed.

Lemma drop_marked_balance (df : DataFrame) (mask : list bool) :
  length mask = length (rows df) ->
  (length (rows (drop_marked df mask)) + count_true mask
   = length (rows df))%nat.
Proof.
  unfold drop_marked, count_true. simpl rows.
  generalize (rows df). intros rs. revert mask.
  induction rs as [|r rs IH]; intros [|b mask] Hlen; try done.
  simpl in Hlen. injection Hlen as Hlen. specialize (IH mask Hlen).
  rewrite length_map in *. simpl. destruct b; simpl; lia.
Qed.

(** X8. The number of rows the cleaning stage reports as removed is the sum
    of what its three steps report for the steps that exclude: the affected
    ages when ages are excluded, the affected incomes when incomes are
    excluded, and the suspicious duplicates when duplicates are excluded.
    No row is removed when no step excludes. *)
Theorem rows_removed_accounting (df : DataFrame)
    (age_method income_method duplicates_method : string)
    (age_min age_max income_min income_max dup_threshold : Z) :
  let c := clean_data df age_method income_method duplicates_method
             age_min age_max income_min income_max dup_threshold in
  rows_removed c =
    (Z.of_nat (if String.eqb (method_key age_method) "exclude"
               then affected_age c else 0%nat) +
     Z.of_nat (if String.eqb (method_key income_method) "exclude"
               then affected_income c else 0%nat) +
     Z.of_nat (if String.eqb duplicates_method "Exclude rows"
               then affected_duplicates c else 0%nat))%Z.
Proof.
  cbv zeta. unfold clean_data.
  pose proof (clean_row_balance df "age" (method_key age_method)
                (Some (inject_Z age_min)) (Some (inject_Z age_max)) true)
    as Hage. cbv zeta in Hage.
  destruct (handle_numeric_outliers df "age" _ _ _ _) as [[df1 a1] v1].
  simpl in Hage.
  assert (Hincome : exists df2 a2 v2,
    match income_column df1 with
    | Some c => handle_numeric_outliers df1 c (method_key income_method)
                  (Some (inject_Z income_min)) (Some (inject_Z income_max))
                  true
    | None => (df1, 0%nat, None)
    end = (df2, a2, v2) /\
    (length (rows df2) +
     (if String.eqb (method_key income_method) "exclude" then a2 else 0)
     = length (rows df1))%nat /\
    columns df2 = columns df1).
  { destruct (income_column df1) as [c|].
    - pose proof (clean_row_balance df1 c (method_key income_method)
                    (Some (inject_Z income_min)) (Some (inject_Z income_max))
                    true) as Hinc. cbv zeta in Hinc.
      pose proof (columns_preserved df1 c (method_key income_method)
                    (Some (inject_Z income_min)) (Some (inject_Z income_max))
                    true) as Hcols.
      destruct (handle_numeric_outliers df1 c _ _ _ _) as [[df2 a2] v2].
      by exists df2, a2, v2.
    - exists df1, 0%nat, None. split; [done|]. split; [|done].
      destruct (String.eqb (method_key income_method) "exclude"); lia. }
  destruct Hincome as (df2 & a2 & v2 & -> & Hinc & _).
  assert (Hdup : exists df3 a3,
    match income_column df1 with
    | Some c =>
        if negb (String.eqb duplicates_method "Ignore") then
          (if String.eqb duplicates_method "Exclude rows"
           then drop_marked df2
                  (detect_suspicious_duplicates df2 c dup_threshold 4)
           else df2,
           count_true (detect_suspicious_duplicates df2 c dup_threshold 4))
        else (df2, 0%nat)
    | None => (df2, 0%nat)
    end = (df3, a3) /\
    (length (rows df3) +
     (if String.eqb duplicates_method "Exclude rows" then a3 else 0)
     = length (rows df2))%nat).
  { destruct (income_column df1) as [c|]; cycle 1.
    { exists df2, 0%nat. split; [done|].
      destruct (String.eqb duplicates_method "Exclude rows"); lia. }
    destruct (String.eqb duplicates_method "Ignore") eqn:Hign; simpl negb;
      cbv iota.
    { exists df2, 0%nat. split; [done|].
      destruct (String.eqb duplicates_method "Exclude rows"); lia. }
    eexists _, _. split; [done|].
    destruct (String.eqb duplicates_method "Exclude rows"); [|lia].
    apply drop_marked_balance, detect_length. }
  destruct Hdup as (df3 & a3 & -> & Hd). simpl.
  destruct (String.eqb (method_key age_method) "exclude"),
    (String.eqb (method_key income_method) "exclude"),
    (String.eqb duplicates_method "Exclude rows"); lia.
Qed.

(** ** Multivariate Outlier Scorer *)

Lemma Qmax_list_upper (d : Q) (ds : list Q) (x : Q) :
  In x (d :: ds) -> x <= Qmax_list d ds.
Proof.
  destruct (running_max_upper d ds) as [Hd Hds].
  intros [<-|Hx]; [exact Hd|]. by apply Hds.
Qed.

Lemma Qmax_list_in (d : Q) (ds : list Q) : In (Qmax_list d ds) (d :: ds).
Proof.
  unfold Qmax_list. induction ds as [|a ds IH]; simpl; [by left|].
  destruct (Qlt_le_dec _ a); [by right; left|].
  destruct IH as [IH|IH]; [by left|by right; right].
Qed.

Lemma Qmin_list_lower (d : Q) (ds : list Q) (x : Q) :
  In x (d :: ds) -> Qmin_list d ds <= x.
Proof.
  unfold Qmin_list. induction ds as [|a ds IH]; simpl.
  - intros [<-|[]]. lra.
  - intros Hx. destruct (Qlt_le_dec a _) as [Hlt|Hle].
    + destruct Hx as [<-|[<-|Hx]].
      * assert (foldr (fun x acc => if Qlt_le_dec x acc then x else acc) d ds
                <= d) by (apply IH; by left). lra.
      * lra.
      * assert (foldr (fun x acc => if Qlt_le_dec x acc then x else acc) d ds
                <= x) by (apply IH; by right). lra.
    + destruct Hx as [<-|[<-|Hx]].
      * apply IH. by left.
      * done.
      * apply IH. by right.
Qed.

Lemma Qmin_list_in (d : Q) (ds : list Q) : In (Qmin_list d ds) (d :: ds).
Proof.
  unfold Qmin_list. induction ds as [|a ds IH]; simpl; [by left|].
  destruct (Qlt_le_dec a _); [by right; left|].
  destruct IH as [IH|IH]; [by left|by right; right].
Qed.

(** The two shapes of the scores: all zero, or the min-max normalisation of
    decision values that are not all equal. *)
Lemma isolation_forest_scores_form (df : DataFrame) (scores : list Q) :
  isolation_forest_scores df = Some scores ->
  length scores = length (rows df) /\
  ((forall x, In x scores -> x = 0) \/
   exists d ds,
     scores = map (fun x => (Qmax_list d ds - x)
                            / (Qmax_list d ds - Qmin_list d ds)) (d :: ds) /\
     ~ Qmax_list d ds == Qmin_list d ds).
Proof.
  unfold isolation_forest_scores.
  destruct (List.filter _ NUMERIC_CANDIDATES) as [|c0 cs].
  { intros [= <-]. split; [apply length_replicate|]. left.
    by intros x [-> _]%list_elem_of_In%elem_of_replicate. }
  intros (X & HX & H)%bind_Some.
  destruct (map (decision_function X) (seq 0 (length X))) as [|d ds] eqn:Hdec;
    [done|].
  assert (Hn : length (d :: ds) = length (rows df)).
  { rewrite <- Hdec, length_map, length_seq.
    symmetry. by apply length_mapM in HX. }
  injection H as <-. split.
  { simpl in *. by rewrite length_map. }
  destruct (Qeq_bool (Qmax_list d ds) (Qmin_list d ds)) eqn:Heq.
  - left. intros x Hx.
    change (In x (map (fun _ : Q => 0) (d :: ds))) in Hx.
    by apply in_map_iff in Hx as (y & <- & _).
  - right. exists d, ds. split; [reflexivity|]. by apply Qeq_bool_neq.
Qed.

Lemma normalised_range (m M y : Q) :
  m <= y -> y <= M -> ~ M == m -> 0 <= (M - y) / (M - m) <= 1.
Proof.
  intros Hlo Hhi Hne. assert (0 < M - m) by lra. split.
  - apply Qle_shift_div_l; [done|]. lra.
  - apply Qle_shift_div_r; [done|]. lra.
Qed.

Lemma outlier_score_range (df : DataFrame) (scores : list Q) (x : Q) :
  isolation_forest_scores df = Some scores -> In x scores -> 0 <= x <= 1.
Proof.
  intros [_ Hform]%isolation_forest_scores_form.
  destruct Hform as [Hzero|(d & ds & -> & Hne)].
  - intros ->%Hzero. lra.
  - intros (y & <- & Hy)%in_map_iff.
    apply normalised_range; [by apply Qmin_list_lower
                            |by apply Qmax_list_upper|done].
Qed.

(** X9. When the outlier scorer returns, it returns one score per row and
    every score lies between 0 and 1, whatever the fitted model's decision
    values are. *)
Theorem outlier_scores_unit_interval (df : DataFrame) (scores : list Q) :
  isolation_forest_scores df = Some scores ->
  length scores = length (rows df) /\
  forall x, In x scores -> 0 <= x <= 1.
Proof.
  intros [Hlen Hform]%isolation_forest_scores_form. split; [done|].
  destruct Hform as [Hzero|(d & ds & -> & Hne)].
  - intros x ->%Hzero. lra.
  - intros x (y & <- & Hy)%in_map_iff.
    apply normalised_range; [by apply Qmin_list_lower
                            |by apply Qmax_list_upper|done].
Qed.

(** X10. The scores are batch-relative: either every row scores exactly 0
    (the decision values are all equal, or no numeric column is present), or
    some row scores 1 and some row scores 0. *)
Theorem outlier_scores_extremes (df : DataFrame) (scores : list Q) :
  isolation_forest_scores df = Some scores ->
  (forall x, In x scores -> x = 0) \/
  ((exists x, In x scores /\ x == 1) /\ (exists x, In x scores /\ x == 0)).
Proof.
  intros [_ [Hzero|(d & ds & -> & Hne)]]%isolation_forest_scores_form;
    [by left|right].
  assert (~ Qmax_list d ds - Qmin_list d ds == 0) by lra.
  split.
  - eexists. split.
    + apply in_map_iff. exists (Qmin_list d ds). split; [done|].
      apply Qmin_list_in.
    + simpl. by field.
  - eexists. split.
    + apply in_map_iff. exists (Qmax_list d ds). split; [done|].
      apply Qmax_list_in.
    + simpl. by field.
Qed.

(** X11. Without any numeric candidate column the scorer fits no model and
    never raises: every row scores 0, also for an empty table. *)
Theorem outlier_scores_without_features (df : DataFrame) :
  (forall c, In c NUMERIC_CANDIDATES -> c ∉ columns df) ->
  isolation_forest_scores df = Some (replicate (length (rows df)) 0).
Proof.
  intros Hnone. unfold isolation_forest_scores.
  assert (Hf : List.filter (fun c => bool_decide (c ∈ columns df))
                 NUMERIC_CANDIDATES = []).
  { apply length_zero_iff_nil, filter_none_length. intros c Hc.
    apply bool_decide_eq_false_2. by apply Hnone. }
  by rewrite Hf.
Qed.

(** ** More on the Category Deviation Scorer *)


(** ** More on the Risk Aggregator *)

(** The scored table in terms of the two scorers' results. *)
Lemma flag_anomalies_parts (df : DataFrame)
    (iforest_weight zscore_weight z_threshold score_threshold : Q)
    (out : list ScoredRow) :
  flag_anomalies df iforest_weight zscore_weight z_threshold score_threshold
  = Some out ->
  exists (iforest : list Q) (zcomponents : list (list (option Q))),
    isolation_forest_scores df = Some iforest /\
    Forall (fun zc => exists zs, zc = map (fmap Qabs) zs) zcomponents /\
    let z := anomaly_z_series (length (rows df)) zcomponents in
    out = imap (fun i r =>
            let a := default 0 (iforest !! i) in
            let zi := default None (z !! i) in
            mkScoredRow r a zi
              (fadd (fmul (Some iforest_weight) (fillna0 (Some a)))
                    (fmul (Some zscore_weight)
                       (fdiv (fillna0 zi) (py_max (nanmax z) 1))))
              (reason_of a zi z_threshold score_threshold)
              (fge (Some a) score_threshold || fge zi z_threshold))
          (rows df).
Proof.
  unfold flag_anomalies. intros H.
  apply bind_Some in H as (iforest & Hi & H).
  apply bind_Some in H as (zcomponents & Hz & H).
  injection H as <-. exists iforest, zcomponents.
  split; [done|]. split; [|done].
  apply mapM_Some in Hz. apply Forall_forall. intros zc Hzc.
  apply list_elem_of_lookup in Hzc as [j Hj].
  destruct (Forall2_lookup_r _ _ _ _ _ Hz Hj) as (cat & _ & Hcat).
  apply fmap_Some in Hcat as (zs & _ & ->). eauto.
Qed.


Lemma anomaly_z_nonneg (n : nat) (zcomponents : list (list (option Q)))
    (i : nat) (d : Q) :
  Forall (fun zc => exists zs, zc = map (fmap Qabs) zs) zcomponents ->
  anomaly_z_series n zcomponents !! i = Some (Some d) -> 0 <= d.
Proof.
  intros Hzc. unfold anomaly_z_series.
  destruct zcomponents as [|zc0 zcs] eqn:Hcomp.
  { intros [[= <-] _]%lookup_replicate. lra. }
  rewrite <- Hcomp in *. rewrite list_lookup_fmap.
  destruct (seq 0 n !! i) as [j|]; [|done]. simpl. intros [= Hmean].
  unfold nanmean in Hmean.
  destruct (dropna _) as [|v vs] eqn:Hvs; [done|].
  injection Hmean as <-. apply mean_nonneg. intros x Hx.
  rewrite <- Hvs in Hx. apply dropna_in in Hx.
  apply in_map_iff in Hx as (zc & Hx & Hin).
  rewrite Forall_forall in Hzc.
  destruct (Hzc zc) as [zs ->]; [by apply list_elem_of_In|].
  rewrite list_lookup_fmap in Hx.
  destruct (zs !! j) as [[y|]|]; simpl in Hx; try done.
  injection Hx as <-. apply Qabs_nonneg.
Qed.

(** X15. With non-negative weights, every risk score that is a number lies
    between 0 and [iforest_weight + zscore_weight]; the outlier score of a
    row lies between 0 and 1 and its deviation, when a number, is not
    negative.  So weights that sum to at most 1 keep the risk score in the
    unit interval. *)
Theorem risk_score_bounds (df : DataFrame)
    (iforest_weight zscore_weight z_threshold score_threshold : Q)
    (out : list ScoredRow) (i : nat) (row : ScoredRow) :
  flag_anomalies df iforest_weight zscore_weight z_threshold score_threshold
  = Some out ->
  out !! i = Some row ->
  0 <= iforest_weight -> 0 <= zscore_weight ->
  0 <= anomaly_iforest row <= 1 /\
  (forall d, anomaly_z row = Some d -> 0 <= d) /\
  (forall s, risk_score row = Some s ->
     0 <= s <= iforest_weight + zscore_weight).
Proof.
  intros (iforest & zc & Hif & Hzc & ->)%flag_anomalies_parts Hrow Hw1 Hw2.
  cbv zeta in Hrow. rewrite list_lookup_imap in Hrow.
  destruct (rows df !! i) as [r|]; [|done]. simpl in Hrow.
  injection Hrow as <-. simpl.
  set (z := anomaly_z_series (length (rows df)) zc).
  assert (Ha : 0 <= default 0 (iforest !! i) <= 1).
  { destruct (iforest !! i) as [a|] eqn:Hi; simpl; [|lra].
    apply (outlier_score_range df iforest); [done|].
    apply list_elem_of_In, list_elem_of_lookup. eauto. }
  assert (Hd : forall d, default None (z !! i) = Some d -> 0 <= d).
  { intros d Hd. destruct (z !! i) as [zi|] eqn:Hi; [|done].
    simpl in Hd. subst zi.
    by apply (anomaly_z_nonneg (length (rows df)) zc i). }
  split; [done|]. split; [done|].
  intros s Hs.
  destruct (nanmax z) as [M|] eqn:HM;
    [|by destruct (default None (z !! i))].
  simpl in Hs.
  set (M' := if Qlt_le_dec M 1 then 1 else M) in *.
  assert (HM' : 1 <= M' /\ M <= M').
  { unfold M'. destruct (Qlt_le_dec M 1); split; lra. }
  assert (exists d0, fillna0 (default None (z !! i)) = Some d0 /\
                     0 <= d0 <= M') as (d0 & Hd0 & Hrange).
  { destruct (default None (z !! i)) as [d|] eqn:Hzi; simpl.
    - exists d. split; [done|]. split; [by apply Hd|].
      assert (In (Some d) z) as Hin.
      { destruct (z !! i) as [zi|] eqn:Hi; [|done]. simpl in Hzi. subst zi.
        apply list_elem_of_In, list_elem_of_lookup. eauto. }
      destruct (nanmax_upper z d Hin) as (M0 & HM0 & Hle).
      rewrite HM in HM0. injection HM0 as <-. lra.
    - exists 0. split; [done|]. lra. }
  rewrite Hd0 in Hs.
  assert (Hs' : s = iforest_weight * default 0 (iforest !! i)
                    + zscore_weight * (d0 / M')).
  { unfold M'. destruct (Qlt_le_dec M 1); simpl in Hs; by injection Hs. }
  assert (Hq : 0 <= d0 / M' <= 1).
  { split.
    - apply Qle_shift_div_l; lra.
    - apply Qle_shift_div_r; lra. }
  rewrite Hs'. clear Hs Hs'.
  set (a := default 0 (iforest !! i)) in *. set (q := d0 / M') in *.
  nra.
Qed.

(** X16. The thresholds decide only the flag and the reason: two runs on the
    same table and weights give every row the same data, outlier score,
    deviation and risk score, and a row flagged under the higher thresholds
    is flagged under the lower ones. *)
Theorem thresholds_only_decide_flags (df : DataFrame)
    (iforest_weight zscore_weight : Q)
    (z_threshold score_threshold z_threshold' score_threshold' : Q)
    (out out' : list ScoredRow) (i : nat) (row row' : ScoredRow) :
  flag_anomalies df iforest_weight zscore_weight z_threshold score_threshold
  = Some out ->
  flag_anomalies df iforest_weight zscore_weight z_threshold' score_threshold'
  = Some out' ->
  z_threshold <= z_threshold' -> score_threshold <= score_threshold' ->
  out !! i = Some row -> out' !! i = Some row' ->
  row_data row' = row_data row /\
  anomaly_iforest row' = anomaly_iforest row /\
  anomaly_z row' = anomaly_z row /\
  risk_score row' = risk_score row /\
  (flagged row' = true -> flagged row = true).
Proof.
  unfold flag_anomalies. intros H H'.
  apply bind_Some in H as (iforest & Hi & H).
  apply bind_Some in H as (zc & Hz & H).
  apply bind_Some in H' as (iforest' & Hi' & H').
  apply bind_Some in H' as (zc' & Hz' & H').
  rewrite Hi in Hi'. injection Hi' as <-.
  rewrite Hz in Hz'. injection Hz' as <-.
  injection H as <-. injection H' as <-.
  intros Hzt Hst. rewrite !list_lookup_imap.
  destruct (rows df !! i) as [r|]; [|done]. simpl.
  intros [= <-] [= <-]. simpl. repeat split.
  unfold fge. intros [Ha|Hd]%orb_true_iff; apply orb_true_iff.
  - left. apply Qle_bool_iff in Ha. apply Qle_bool_iff. lra.
  - right. destruct (default None _) as [d|]; [|done].
    apply Qle_bool_iff in Hd. apply Qle_bool_iff. lra.
Qed.

(** ** Column coalescing *)

Lemma normalize_char_idem (a : ascii) :
  normalize_char (normalize_char a) = normalize_char a.
Proof. destruct a as [[] [] [] [] [] [] [] []]; reflexivity. Qed.

Lemma normalize_char_no_space (a : ascii) :
  is_space a = false -> is_space (normalize_char a) = false.
Proof.
  destruct a as [[] [] [] [] [] [] [] []]; vm_compute; congruence.
Qed.

Lemma map_string_fused (g h : ascii -> ascii) (t : string) :
  map_string g (map_string h t) = map_string (fun a => g (h a)) t.
Proof. induction t as [|a t IH]; simpl; [done|]. by rewrite IH. Qed.

Lemma map_string_ext (g h : ascii -> ascii) (t : string) :
  (forall a, g a = h a) -> map_string g t = map_string h t.
Proof.
  intros Hext. induction t as [|a t IH]; simpl; [done|].
  by rewrite Hext, IH.
Qed.

Lemma normalize_label_fused (c : string) :
  normalize_label c
  = map_string normalize_char (rstrip_space (lstrip_space c)).
Proof.
  unfold normalize_label. rewrite map_string_fused.
  by apply map_string_ext.
Qed.

Lemma lstrip_head_ok (s : string) : head_ok (lstrip_space s).
Proof.
  induction s as [|a s IH]; simpl; [done|].
  destruct (is_space a) eqn:Ha; [done|]. exact Ha.
Qed.

Lemma lstrip_fixed (u : string) : head_ok u -> lstrip_space u = u.
Proof. destruct u as [|a u]; simpl; [done|]. by intros ->. Qed.

Lemma rstrip_head_ok (u : string) : head_ok u -> head_ok (rstrip_space u).
Proof.
  destruct u as [|a u]; simpl; [done|]. intros Ha.
  destruct (rstrip_space u); [by rewrite Ha|done].
Qed.

Lemma rstrip_idem (s : string) :
  rstrip_space (rstrip_space s) = rstrip_space s.
Proof.
  induction s as [|a s IH]; simpl; [done|].
  destruct (rstrip_space s) as [|b t] eqn:Hr.
  - destruct (is_space a) eqn:Ha; [done|]. simpl. by rewrite Ha.
  - change (rstrip_space (String a (String b t)) = String a (String b t)).
    simpl in IH |- *. by rewrite IH.
Qed.

Lemma map_head_ok (u : string) :
  head_ok u -> head_ok (map_string normalize_char u).
Proof.
  destruct u as [|a u]; simpl; [done|]. apply normalize_char_no_space.
Qed.

Lemma rstrip_map_fixed (u : string) :
  rstrip_space u = u ->
  rstrip_space (map_string normalize_char u) = map_string normalize_char u.
Proof.
  induction u as [|a u IH]; simpl; [done|].
  destruct (rstrip_space u) as [|b t] eqn:Hr.
  - destruct (is_space a) eqn:Ha; [done|]. intros [= <-]. simpl.
    by rewrite normalize_char_no_space.
  - intros [= Hu]. rewrite IH by done. rewrite <- Hu. done.
Qed.

Lemma normalize_label_idem (c : string) :
  normalize_label (normalize_label c) = normalize_label c.
Proof.
  rewrite !normalize_label_fused.
  set (t := rstrip_space (lstrip_space c)).
  assert (Hhead : head_ok t) by apply rstrip_head_ok, lstrip_head_ok.
  assert (Hfix : rstrip_space t = t) by apply rstrip_idem.
  rewrite lstrip_fixed by (by apply map_head_ok).
  rewrite rstrip_map_fixed by done.
  rewrite map_string_fused. apply map_string_ext, normalize_char_idem.
Qed.

Lemma rename_label_elem (old new x : string) (cols : list string) :
  x ∈ rename_label old new cols <->
  (x = new /\ old ∈ cols) \/ (x ∈ cols /\ x <> old).
Proof.
  unfold rename_label. rewrite list_elem_of_In, in_map_iff. split.
  - intros (c & Hc & Hin). apply list_elem_of_In in Hin.
    destruct (String.eqb_spec c old) as [Heq|Hne].
    + left. by subst.
    + right. by subst.
  - intros [[-> Hin]|[Hin Hne]].
    + exists old. rewrite String.eqb_refl. split; [done|].
      by apply list_elem_of_In.
    + exists x. split; [|by apply list_elem_of_In].
      by destruct (String.eqb_spec x old).
Qed.

Lemma rename_label_NoDup (old new : string) (cols : list string) :
  NoDup cols -> new ∉ cols -> NoDup (rename_label old new cols).
Proof.
  induction 1 as [|c cols Hc Hnd IH]; intros Hnew; [constructor|].
  apply not_elem_of_cons in Hnew as [Hne Hnew].
  change (rename_label old new (c :: cols))
    with ((if String.eqb c old then new else c) :: rename_label old new cols).
  apply NoDup_cons. split; [|by apply IH].
  rewrite rename_label_elem.
  destruct (String.eqb_spec c old) as [->|Hco].
  - intros [[_ ?]|[? _]]; done.
  - intros [[-> _]|[? _]]; done.
Qed.

Lemma apply_alias_shape (cols : list string) (a : string * string) :
  length (apply_alias cols a) = length cols /\
  (NoDup cols -> NoDup (apply_alias cols a)).
Proof.
  unfold apply_alias. case_bool_decide as Hold; simpl; [|done].
  case_bool_decide as Hnew; simpl; [done|].
  split; [apply length_map|]. intros Hnd. by apply rename_label_NoDup.
Qed.

Lemma alias_pass_shape (al : list (string * string)) (cols : list string) :
  length (fold_left apply_alias al cols) = length cols /\
  (NoDup cols -> NoDup (fold_left apply_alias al cols)).
Proof.
  revert cols. induction al as [|a al IH]; intros cols; simpl; [done|].
  destruct (IH (apply_alias cols a)) as [Hlen Hnd].
  destruct (apply_alias_shape cols a) as [Hlen' Hnd'].
  split; [by rewrite Hlen|]. auto.
Qed.

(** X17. Coalescing only renames: the number of columns is unchanged, and
    when the normalised labels are pairwise distinct so are the coalesced
    ones, so no renaming ever collides with a label that is present. *)
Theorem coalesce_renames_only (cols : list string) :
  length (coalesce_columns cols) = length cols /\
  (NoDup (map normalize_label cols) -> NoDup (coalesce_columns cols)).
Proof.
  unfold coalesce_columns.
  destruct (alias_pass_shape alias_map (map normalize_label cols))
    as [Hlen Hnd].
  split; [|done]. by rewrite Hlen, length_map.
Qed.

Lemma targets_final_alias_map : targets_final alias_map.
Proof.
  intros a b Ha Hb Heq.
  assert (H : forallb (fun a : string * string =>
                forallb (fun b : string * string =>
                  implb (String.eqb a.2 b.1) (String.eqb b.2 b.1))
                  alias_map) alias_map = true) by (by vm_compute).
  rewrite forallb_forall in H. specialize (H a Ha).
  rewrite forallb_forall in H. specialize (H b Hb).
  apply String.eqb_eq in Heq. rewrite Heq in H. by apply String.eqb_eq.
Qed.

Lemma targets_normalised (a : string * string) :
  In a alias_map -> normalize_label a.2 = a.2.
Proof.
  assert (H : forallb (fun a : string * string =>
                String.eqb (normalize_label a.2) a.2) alias_map = true)
    by (by vm_compute).
  rewrite forallb_forall in H. intros Ha. by apply String.eqb_eq, H.
Qed.

Lemma apply_alias_lookup (cols : list string) (a : string * string)
    (i : nat) (c : string) :
  cols !! i = Some c ->
  apply_alias cols a !! i = Some c \/
  (c = (a.1) /\ ((a.2) ∉ cols) /\ apply_alias cols a !! i = Some (a.2)).
Proof.
  intros Hi. unfold apply_alias.
  case_bool_decide as Hold; simpl; [|by left].
  case_bool_decide as Hnew; simpl; [by left|].
  unfold rename_label. rewrite list_lookup_fmap, Hi. simpl.
  destruct (String.eqb_spec c a.1); [by right|by left].
Qed.

Lemma alias_pass_position (full al : list (string * string))
    (cols0 cols : list string) :
  targets_final full ->
  (forall a, In a al -> In a full) ->
  (forall i c, cols0 !! i = Some c ->
     exists c', cols !! i = Some c' /\ (c' = c \/ In (c, c') full)) ->
  forall i c, cols0 !! i = Some c ->
    exists c', fold_left apply_alias al cols !! i = Some c' /\
               (c' = c \/ In (c, c') full).
Proof.
  intros Hfinal. revert cols.
  induction al as [|a al IH]; intros cols Hal Hinv; simpl; [done|].
  apply IH; [intros; apply Hal; by right|].
  intros i c Hi. destruct (Hinv i c Hi) as (c' & Hc' & Horigin).
  assert (Ha : In a full) by (apply Hal; by left).
  destruct (apply_alias_lookup cols a i c' Hc')
    as [Hsame|(Heq & Hfree & Hnew)].
  { eauto. }
  exists (a.2). split; [done|].
  destruct Horigin as [Hc|Hin].
  - right. rewrite <- Hc, Heq. by destruct a.
  - (* the label was already a target: the alias is its identity alias *)
    pose proof (Hfinal (c, c') a Hin Ha Heq) as Hid.
    right. by rewrite Hid, <- Heq.
Qed.

(** X18. Coalescing keeps every column in its position, and the label it
    gives a column is the column's normalised label or the target the alias
    table gives that label; a column whose normalised label is not a key of
    the alias table keeps its normalised label. *)
Theorem coalesce_positions (cols : list string) (i : nat) (c : string) :
  map normalize_label cols !! i = Some c ->
  exists c', coalesce_columns cols !! i = Some c' /\
    (c' = c \/ In (c, c') alias_map) /\
    (~ In c (map fst alias_map) -> c' = c).
Proof.
  intros Hi.
  destruct (alias_pass_position alias_map alias_map
              (map normalize_label cols) (map normalize_label cols)
              targets_final_alias_map (fun a H => H)
              (fun i c H => ex_intro _ c (conj H (or_introl eq_refl)))
              i c Hi) as (c' & Hc' & Horigin).
  exists c'. split; [done|]. split; [done|].
  intros Hkey. destruct Horigin as [->|Hin]; [done|].
  destruct Hkey. apply in_map_iff. by exists (c, c').
Qed.

Lemma settled_noop (cols : list string) (a : string * string) :
  settled_alias cols a -> apply_alias cols a = cols.
Proof.
  intros [Hold|Hnew]; unfold apply_alias.
  - by rewrite (bool_decide_eq_false_2 _ Hold).
  - rewrite (bool_decide_eq_true_2 _ Hnew). simpl. by rewrite andb_false_r.
Qed.

Lemma apply_alias_cases (cols : list string) (a : string * string) :
  ((a.1) ∈ cols /\ ((a.2) ∉ cols) /\
   apply_alias cols a = rename_label (a.1) (a.2) cols) \/
  (settled_alias cols a /\ apply_alias cols a = cols).
Proof.
  destruct (decide (a.1 ∈ cols)) as [Hold|Hold];
    [destruct (decide (a.2 ∈ cols)) as [Hnew|Hnew]|].
  - right. split; [by right|]. apply settled_noop. by right.
  - left. split; [done|]. split; [done|]. unfold apply_alias.
    by rewrite (bool_decide_eq_true_2 _ Hold), (bool_decide_eq_false_2 _ Hnew).
  - right. split; [by left|]. apply settled_noop. by left.
Qed.

Lemma apply_settles (cols : list string) (a : string * string) :
  settled_alias (apply_alias cols a) a.
Proof.
  destruct (apply_alias_cases cols a) as [(Hold & Hnew & ->)|[Hs ->]];
    [|done].
  left. rewrite rename_label_elem. intros [[Heq _]|[_ ?]]; [|done].
  by rewrite <- Heq in Hnew.
Qed.

Lemma settled_preserved (full : list (string * string)) (cols : list string)
    (a b : string * string) :
  targets_final full -> In a full -> In b full ->
  settled_alias cols a -> settled_alias (apply_alias cols b) a.
Proof.
  intros Hfinal Ha Hb Hs.
  destruct (apply_alias_cases cols b) as [(Hold & Hnew & ->)|[_ ->]];
    [|done].
  unfold settled_alias. rewrite !rename_label_elem.
  destruct Hs as [Hout|Hin].
  - destruct (decide (a.1 = b.2)) as [Heq|Hne].
    + right. left. split; [|done].
      symmetry in Heq. rewrite (Hfinal b a Hb Ha Heq). by symmetry.
    + left. intros [[? _]|[? _]]; done.
  - right. right. split; [done|]. intros Heq.
    pose proof (Hfinal a b Ha Hb Heq) as Hid. by rewrite Hid in Hnew.
Qed.

Lemma alias_pass_settles (full done_ al : list (string * string))
    (cols : list string) :
  targets_final full ->
  (forall a, In a (done_ ++ al) -> In a full) ->
  (forall a, In a done_ -> settled_alias cols a) ->
  forall a, In a (done_ ++ al) ->
    settled_alias (fold_left apply_alias al cols) a.
Proof.
  intros Hfinal. revert done_ cols.
  induction al as [|b al IH]; intros done_ cols Hfull Hdone a Ha; simpl.
  { rewrite app_nil_r in Ha. by apply Hdone. }
  apply (IH (done_ ++ [b])).
  - intros a' Ha'. apply Hfull. by rewrite <- app_assoc in Ha'.
  - intros a' [Ha'|[<-|[]]]%in_app_or.
    + apply (settled_preserved full); [done| | |by apply Hdone].
      * apply Hfull, in_or_app. by left.
      * apply Hfull, in_or_app. right. by left.
    + apply apply_settles.
  - by rewrite <- app_assoc.
Qed.

Lemma alias_pass_noop (al : list (string * string)) (cols : list string) :
  (forall a, In a al -> settled_alias cols a) ->
  fold_left apply_alias al cols = cols.
Proof.
  induction al as [|a al IH]; intros Hs; simpl; [done|].
  rewrite settled_noop by (apply Hs; by left).
  apply IH. intros; apply Hs; by right.
Qed.

Lemma alias_pass_idempotent (al : list (string * string))
    (cols : list string) :
  targets_final al ->
  (forall a, In a al -> normalize_label a.2 = a.2) ->
  let pass := fold_left apply_alias al (map normalize_label cols) in
  fold_left apply_alias al (map normalize_label pass) = pass.
Proof.
  intros Hfinal Htargets pass.
  assert (Hnorm : map normalize_label pass = pass).
  { apply list_eq. intros i. rewrite list_lookup_fmap.
    destruct (alias_pass_shape al (map normalize_label cols)) as [Hlen _].
    fold pass in Hlen.
    destruct (map normalize_label cols !! i) as [c|] eqn:Hi.
    - destruct (alias_pass_position al al
                  (map normalize_label cols) (map normalize_label cols)
                  Hfinal (fun a H => H)
                  (fun i c H => ex_intro _ c (conj H (or_introl eq_refl)))
                  i c Hi) as (c' & Hc' & Horigin).
      fold pass in Hc'. rewrite Hc'. cbn [fmap option_fmap option_map].
      f_equal. destruct Horigin as [->|Hin].
      + rewrite list_lookup_fmap in Hi.
        destruct (cols !! i) as [c0|]; [|discriminate Hi].
        injection Hi as <-. apply normalize_label_idem.
      + apply (Htargets (c, c') Hin).
    - apply lookup_ge_None in Hi.
      assert (pass !! i = None) as Hnone by (apply lookup_ge_None; lia).
      rewrite Hnone. reflexivity. }
  rewrite Hnorm. apply alias_pass_noop.
  apply (alias_pass_settles al [] al (map normalize_label cols) Hfinal).
  - intros a Ha. exact Ha.
  - intros a [].
Qed.

(** X19. Coalescing is idempotent: the labels of a coalesced header are
    already normalised and no alias fires on them, so coalescing again
    changes nothing. *)
Theorem coalesce_idempotent (cols : list string) :
  coalesce_columns (coalesce_columns cols) = coalesce_columns cols.
Proof.
  exact (alias_pass_idempotent alias_map cols targets_final_alias_map
           targets_normalised).
Qed.

(** ** Data quality summary *)

Lemma missing_present_length (series : list (option Q)) :
  (length (List.filter (fun x : option Q => negb (bool_decide (is_Some x)))
             series)
   + length (dropna series) = length series)%nat.
Proof.
  unfold dropna. induction series as [|[x|] l IH]; [done| |];
    cbn in *; lia.
Qed.

Lemma quality_summary_lookup (df : DataFrame) (col : string)
    (q : ColumnQuality) :
  get_data_quality_summary df !! col = Some q ->
  col ∈ columns df /\
  In col ["age"; "annual_income"; "claim_amount"]%string /\
  q = column_quality (float_series df col).
Proof.
  unfold get_data_quality_summary. cbn [fold_left].
  intros H.
  repeat match type of H with
  | context [bool_decide ?P] =>
      destruct (decide P);
      [rewrite (bool_decide_eq_true_2 P) in H by done
      |rewrite (bool_decide_eq_false_2 P) in H by done]
  end;
  repeat match type of H with
  | <[_ := _]> _ !! _ = Some _ =>
      apply lookup_insert_Some in H as [[<- <-]|[_ H]]
  | ∅ !! _ = Some _ => by rewrite lookup_empty in H
  end;
  (split; [done|]); (split; [|done]); simpl; auto.
Qed.

(** X21. Every entry of the data quality summary is for one of the three
    summarised columns and for a column of the table; its missing count and
    the number of values it found add up to the row count; minimum, maximum
    and mean are absent exactly when every value is missing; and when
    present the minimum and the maximum are values of the coerced column
    and every value of the column lies between them. *)
Theorem quality_summary_entry (df : DataFrame) (col : string)
    (q : ColumnQuality) :
  get_data_quality_summary df !! col = Some q ->
  col ∈ columns df /\
  In col ["age"; "annual_income"; "claim_amount"]%string /\
  (missing_count q + length (dropna (float_series df col))
   = length (rows df))%nat /\
  (quality_min q = None <-> dropna (float_series df col) = []) /\
  (quality_mean q = None <-> quality_min q = None) /\
  (quality_max q = None <-> quality_min q = None) /\
  forall a b,
    quality_min q = Some a -> quality_max q = Some b ->
    In (Some a) (float_series df col) /\
    In (Some b) (float_series df col) /\
    forall x, In (Some x) (float_series df col) -> a <= x <= b.
Proof.
  intros (Hcol & Hin & ->)%quality_summary_lookup.
  split; [done|]. split; [done|].
  unfold column_quality. cbv zeta. cbn [missing_count quality_min
    quality_max quality_mean].
  split.
  { rewrite missing_present_length. unfold float_series.
    by rewrite length_map. }
  pose proof (dropna_in (float_series df col)) as Hdrop.
  destruct (dropna (float_series df col)) as [|v vs]; simpl.
  { repeat split; done. }
  split; [by split|]. split; [by split|]. split; [by split|].
  intros a b [= <-] [= <-]. split; [|split].
  - apply Hdrop, Qmin_list_in.
  - apply Hdrop, Qmax_list_in.
  - intros x Hx%Hdrop. split.
    + by apply Qmin_list_lower.
    + by apply Qmax_list_upper.
Qed.

End Engine.

(** * The model run on the sample tables *)

(** C1, at the failing input.  Ages 150, missing, 30, 40 cleaned with
    [impute_mean] and bounds 18 to 90: one value is affected and 35 is
    reported, and the returned ages are 35, 35, 30, 40.  The missing age has
    been overwritten with the imputed value, where the claim says a missing
    cell is never altered. *)
Theorem impute_overwrites_missing :
  let res := handle_numeric_outliers parse_digits ages_with_missing "age"
               "impute_mean" (Some 18) (Some 90) true in
  map (fun r => cell_at r "age") (rows ages_with_missing)
    = [CNum 150; CNaN; CNum 30; CNum 40] /\
  map (fun r => cell_at r "age") (rows res.1.1)
    = [CNum 35; CNum 35; CNum 30; CNum 40] /\
  res.1.2 = 1%nat /\
  res.2 = Some 35.
Proof. vm_compute. repeat split. Qed.

(** C5, at the failing input.  The ages "abc", "150", "30" (text) cleaned
    with [leave] and bounds 18 to 90: the returned table is not the input;
    its ages are missing, 150 and 30, the text "abc" having become a missing
    value, where the claim says the cells come back exactly as they were. *)
Theorem leave_coerces_text :
  let res := handle_numeric_outliers parse_digits ages_as_text "age"
               "leave" (Some 18) (Some 90) true in
  map (fun r => cell_at r "age") (rows ages_as_text)
    = [CText "abc"; CText "150"; CText "30"] /\
  map (fun r => cell_at r "age") (rows res.1.1)
    = [CNaN; CNum 150; CNum 30] /\
  res.1.1 <> ages_as_text /\
  res.1.2 = 1%nat /\
  res.2 = None.
Proof.
  cbv zeta. split; [by vm_compute|]. split; [by vm_compute|].
  split; [|by vm_compute].
  intros H.
  apply (f_equal (fun d => map (fun r => cell_at r "age") (rows d))) in H.
  vm_compute in H. discriminate.
Qed.

(** C2 at the ages 150, missing, 30, 40. *)
Lemma clean_exclude_ages :
  "age" ∈ columns ages_with_missing /\
  let res := handle_numeric_outliers parse_digits ages_with_missing "age"
               "exclude" (Some 18) (Some 90) true in
  rows res.1.1 =
    map (coerced_row parse_digits "age")
      (List.filter (in_range_or_missing parse_digits (Some 18) (Some 90) "age")
         (rows ages_with_missing)) /\
  res.1.2 = out_of_range_count parse_digits ages_with_missing "age" (Some 18)
              (Some 90) /\
  (length (rows res.1.1) + res.1.2 = length (rows ages_with_missing))%nat /\
  sublist (rows res.1.1)
    (rows (coerce_column parse_digits ages_with_missing "age")).
Proof.
  assert (H : "age" ∈ columns ages_with_missing) by present.
  split; [exact H|].
  destruct (clean_exclude parse_digits ages_with_missing "age" (Some 18)
              (Some 90) true H)
    as (Hrows & Hcount & _ & _ & _ & _ & Hlen & _ & Hsub).
  exact (conj Hrows (conj Hcount (conj Hlen Hsub))).
Defined.

(** The bounds are inclusive: of the ages 18, 90, 30, 150 cleaned with
    [exclude] and bounds 18 to 90, the first three survive and one value is
    reported. *)
Example clean_exclude_keeps_bounds :
  let res := handle_numeric_outliers parse_digits ages_at_bounds "age"
               "exclude" (Some 18) (Some 90) true in
  map (fun r => cell_at r "age") (rows res.1.1)
    = [CNum 18; CNum 90; CNum 30] /\
  res.1.2 = 1%nat /\
  out_of_range_count parse_digits ages_at_bounds "age" (Some 18) (Some 90)
    = 1%nat.
Proof. by vm_compute. Qed.

(** C4: against the claim, the zero fallback.  The single age 5 cleaned with
    [impute_mean], minimum 18 and no maximum: no value is valid and a bound
    is infinite, so 0 is imputed; cleaning the result again reports an
    affected value. *)
Lemma clean_twice_zero_fallback :
  let first := handle_numeric_outliers parse_digits one_young_age "age"
                 "impute_mean" (Some 18) None true in
  first.2 = Some 0 /\
  (handle_numeric_outliers parse_digits first.1.1 "age" "impute_mean"
     (Some 18) None true).1.2 <> 0%nat.
Proof. cbv zeta. split; [by vm_compute|]. vm_compute. discriminate. Qed.

(** C4, amended, at the ages 150, missing, 30, 40: the first cleaning
    imputes 35, which lies within 18 to 90. *)
Lemma clean_twice_ages :
  let res := handle_numeric_outliers parse_digits ages_with_missing "age"
               "impute_mean" (Some 18) (Some 90) true in
  (String.eqb "impute_mean" "exclude" = true \/
   (String.eqb "impute_mean" "leave" = false /\
    forall v, res.2 = Some v -> in_bounds (Some 18) (Some 90) v)) /\
  res.2 = Some 35 /\
  (handle_numeric_outliers parse_digits res.1.1 "age" "impute_mean" (Some 18)
     (Some 90) true).1.2 = 0%nat.
Proof.
  cbv zeta.
  assert (H : String.eqb "impute_mean" "exclude" = true \/
    (String.eqb "impute_mean" "leave" = false /\
     forall v,
       (handle_numeric_outliers parse_digits ages_with_missing "age"
          "impute_mean" (Some 18) (Some 90) true).2 = Some v ->
       in_bounds (Some 18) (Some 90) v)).
  { right. split; [reflexivity|]. intros v Hv. vm_compute in Hv.
    injection Hv as <-. split; intros b [= <-]; by vm_compute. }
  split; [exact H|]. split; [reflexivity|].
  exact (clean_twice_affected_zero parse_digits ages_with_missing "age"
           "impute_mean" "impute_mean" (Some 18) (Some 90) true true H).
Defined.

(** C6: against the claim.  An unknown policy name is cleaned as
    [impute_mean], value 35 imputed, with no error; with the bounds inverted
    (minimum 90, maximum 18) the policy [exclude] runs and drops the three
    rows that have an age; the interactive surface shows its message and
    returns that same cleaning. *)
Lemma configuration_errors_not_raised :
  handle_numeric_outliers parse_digits ages_with_missing "age" "median"
    (Some 18) (Some 90) true =
  handle_numeric_outliers parse_digits ages_with_missing "age" "impute_mean"
    (Some 18) (Some 90) true /\
  (handle_numeric_outliers parse_digits ages_with_missing "age" "median"
     (Some 18) (Some 90) true).2 = Some 35 /\
  (let res := handle_numeric_outliers parse_digits ages_with_missing "age"
                "exclude" (Some 90) (Some 18) true in
   map (fun r => cell_at r "age") (rows res.1.1) = [CNaN] /\
   res.1.2 = 3%nat) /\
  (clean_age parse_digits ages_with_missing "Exclude rows" 90 18).2 =
  handle_numeric_outliers parse_digits ages_with_missing "age" "exclude"
    (Some 90) (Some 18) true.
Proof. repeat split; by vm_compute. Qed.

(** C6, amended, at the ages 150, missing, 30, 40 and the name "median". *)
Lemma configuration_not_validated_ages :
  String.eqb "median" "leave" = false /\
  String.eqb "median" "exclude" = false /\
  handle_numeric_outliers parse_digits ages_with_missing "age" "median"
    (Some 18) (Some 90) true =
  handle_numeric_outliers parse_digits ages_with_missing "age" "impute_mean"
    (Some 18) (Some 90) true.
Proof.
  split; [reflexivity|]. split; [reflexivity|].
  apply (configuration_not_validated parse_digits ages_with_missing "age"
           true); reflexivity.
Defined.

(** C8: against the claim.  In the series inf, inf, 7 the value inf is not
    missing and occurs twice, yet at two occurrences no entry is marked: the
    text of inf holds no point, and the loop marks nothing for it. *)
Lemma infinite_values_not_marked :
  let values := [Some (Infinite false); Some (Infinite false);
                 Some (Finite 7)] in
  occurrences values (Infinite false) = 2%nat /\
  format_10f (Infinite false) = "inf"%string /\
  detect_series values 2 4 = [false; false; false].
Proof. by vm_compute. Qed.

(** C8, amended, at the incomes: the first row holds 52000.5, the value of
    three rows, and is marked at three occurrences. *)
Lemma detect_marks_frequent_incomes :
  let r : record := {[ "annual_income"%string := CNum (104001 # 2) ]} in
  rows incomes !! 0%nat = Some r /\
  detect_suspicious_duplicates parse_digits incomes "annual_income" 3 4
    !! 0%nat = Some true /\
  ("annual_income" ∈ columns incomes /\
   exists q,
     numeric_value parse_digits (cell_at r "annual_income") = Some q /\
     (3 <= Z.of_nat (value_frequency parse_digits incomes "annual_income" q))%Z).
Proof.
  cbv zeta.
  assert (Hr : rows incomes !! 0%nat
               = Some ({[ "annual_income"%string := CNum (104001 # 2) ]}
                       : record)) by reflexivity.
  assert (H : detect_suspicious_duplicates parse_digits incomes
                "annual_income" 3 4 !! 0%nat = Some true) by reflexivity.
  split; [exact Hr|]. split; [exact H|].
  destruct (detect_marks_frequent parse_digits 3 4) as [_ Htable].
  destruct (Htable incomes "annual_income"%string) as [_ Hmask].
  exact (proj1 (Hmask 0%nat _ true Hr H) eq_refl).
Defined.

(** C9: against the claim.  On the series -inf, -inf the frequency-only
    detector marks both entries at two occurrences, and the detector marks
    none. *)
Lemma detector_differs_on_infinity :
  let values := [Some (Infinite true); Some (Infinite true)] in
  by_frequency values 2 = [true; true] /\
  (forall precision_threshold,
     detect_series values 2 precision_threshold = [false; false]).
Proof.
  cbv zeta. split; [by vm_compute|]. intros p.
  rewrite detect_series_finite. by vm_compute.
Qed.

(** C9, amended, at the incomes, a series without infinity. *)
Lemma detect_ignores_precision_incomes :
  let values := detector_values parse_digits incomes "annual_income" in
  (forall negative, ~ In (Some (Infinite negative)) values) /\
  detect_series values 3 4 = by_frequency values 3 /\
  detect_series values 3 4 = [true; false; true; false; true].
Proof.
  cbv zeta.
  assert (H : forall negative,
            ~ In (Some (Infinite negative))
                (detector_values parse_digits incomes "annual_income")).
  { intros n Hn. vm_compute in Hn. intuition discriminate. }
  split; [exact H|]. split; [|by vm_compute].
  destruct (detect_ignores_precision parse_digits incomes "annual_income" 3)
    as (_ & _ & _ & Hfin).
  exact (Hfin _ 4%Z H).
Defined.

(** C3 at the claims: the fourth row, 1000 in a group of 100s, is flagged
    by both conditions. *)
Lemma flagged_matches_reason_claims :
  exists out row,
    flag_anomalies parse_digits sqrt_approx sample_decision claims
      (6 # 10) (4 # 10) (3 # 2) (65 # 100) = Some out /\
    out !! 3%nat = Some row /\
    (exists iforest zscores,
       isolation_forest_scores parse_digits sample_decision claims
         = Some iforest /\
       iforest !! 3%nat = Some (anomaly_iforest row) /\
       anomaly_z row = raw_deviation zscores 3) /\
    (risk_reason row = "—"%string <-> flagged row = false) /\
    risk_reason row = "IsolationForest outlier, Category z-score high"%string.
Proof.
  destruct (flag_anomalies parse_digits sqrt_approx sample_decision claims
              (6 # 10) (4 # 10) (3 # 2) (65 # 100)) as [out|] eqn:Hout;
    [|vm_compute in Hout; discriminate].
  destruct (out !! 3%nat) as [row|] eqn:Hrow;
    [|vm_compute in Hout; injection Hout as <-; discriminate].
  exists out, row. split; [reflexivity|]. split; [exact Hrow|].
  destruct (flagged_matches_reason parse_digits sqrt_approx sample_decision
              claims (6 # 10) (4 # 10) (3 # 2) (65 # 100) out 3%nat row
              Hout Hrow)
    as ((iforest & zscores & Hif & _ & Ha & Hd) & _ & Hiff & _).
  split; [by exists iforest, zscores|].
  split; [exact Hiff|].
  vm_compute in Hout. injection Hout as <-. by injection Hrow as <-.
Defined.

(** C7 at the claims: the batch maximum of the deviations exists and the
    fourth row's score is a number. *)
Lemma risk_score_formula_claims :
  exists out row d,
    flag_anomalies parse_digits sqrt_approx sample_decision claims
      (6 # 10) (4 # 10) (3 # 2) (65 # 100) = Some out /\
    out !! 3%nat = Some row /\
    anomaly_z row = Some d /\
    exists M,
      nanmax (map anomaly_z out) = Some M /\
      risk_score row =
        Some ((6 # 10) * anomaly_iforest row +
              (4 # 10) * (d / (if Qlt_le_dec M 1 then 1 else M))).
Proof.
  destruct (flag_anomalies parse_digits sqrt_approx sample_decision claims
              (6 # 10) (4 # 10) (3 # 2) (65 # 100)) as [out|] eqn:Hout;
    [|vm_compute in Hout; discriminate].
  destruct (out !! 3%nat) as [row|] eqn:Hrow;
    [|vm_compute in Hout; injection Hout as <-; discriminate].
  destruct (anomaly_z row) as [d|] eqn:Hd;
    [|vm_compute in Hout; injection Hout as <-; injection Hrow as <-;
      discriminate].
  exists out, row, d. split; [reflexivity|]. split; [exact Hrow|].
  split; [exact Hd|].
  destruct (risk_score_formula parse_digits sqrt_approx sample_decision
              claims (6 # 10) (4 # 10) (3 # 2) (65 # 100) out 3%nat row
              Hout Hrow) as (_ & _ & Hnum).
  destruct (Hnum d Hd) as (M & HM & _ & Hscore).
  exists M. by split.
Defined.



(** Without a pivot column the deviation of every row is 0. *)
Example no_pivot_deviation_zero :
  map anomaly_z
    (default []
       (flag_anomalies parse_digits sqrt_approx sample_decision
          claims_without_pivot (6 # 10) (4 # 10) (5 # 2) (65 # 100)))
  = [Some 0; Some 0].
Proof. by vm_compute. Qed.

(** * The further properties run on the sample tables *)

(** X2 at the ages 150, missing, 30, 40. *)
Lemma impute_leaves_no_missing_ages :
  "age" ∈ columns ages_with_missing /\
  invalid_count parse_digits ages_with_missing "age" (Some 18) (Some 90)
    <> 0%nat /\
  let res := handle_numeric_outliers parse_digits ages_with_missing "age"
               "impute_mean" (Some 18) (Some 90) true in
  length (rows res.1.1) = length (rows ages_with_missing) /\
  forall r', In r' (rows res.1.1) -> exists q, cell_at r' "age" = CNum q.
Proof.
  assert (H1 : "age" ∈ columns ages_with_missing) by present.
  assert (H2 : invalid_count parse_digits ages_with_missing "age" (Some 18)
                 (Some 90) <> 0%nat) by (vm_compute; discriminate).
  split; [exact H1|]. split; [exact H2|].
  exact (impute_leaves_no_missing parse_digits ages_with_missing "age"
           "impute_mean" (Some 18) (Some 90) true H1 H2 eq_refl eq_refl).
Defined.

(** X3 at the ages 150, missing, 30, 40 under [exclude]. *)
Lemma clean_twice_same_table_ages :
  String.eqb "exclude" "exclude" = true /\
  let res := handle_numeric_outliers parse_digits ages_with_missing "age"
               "exclude" (Some 18) (Some 90) true in
  handle_numeric_outliers parse_digits res.1.1 "age" "impute_mean" (Some 18)
    (Some 90) true = (res.1.1, 0%nat, None).
Proof.
  split; [reflexivity|].
  apply (clean_twice_same_table parse_digits ages_with_missing "age"
           "exclude" "impute_mean" (Some 18) (Some 90) true true).
  by left.
Defined.

(** X5 at the incomes: the first row is marked at 3 occurrences, hence at
    2. *)
Lemma detect_monotone_incomes :
  (2 <= 3)%Z /\
  detect_suspicious_duplicates parse_digits incomes "annual_income" 3 4
    !! 0%nat = Some true /\
  detect_suspicious_duplicates parse_digits incomes "annual_income" 2 4
    !! 0%nat = Some true.
Proof.
  assert (H1 : (2 <= 3)%Z) by lia.
  assert (H2 : detect_suspicious_duplicates parse_digits incomes
                 "annual_income" 3 4 !! 0%nat = Some true) by reflexivity.
  split; [exact H1|]. split; [exact H2|].
  exact (detect_monotone parse_digits incomes "annual_income" 2 3 4 0%nat
           H1 H2).
Defined.

(** X6 at the incomes: a row is marked, so at least 3 rows are. *)
Lemma detect_marked_count_incomes :
  detect_suspicious_duplicates parse_digits incomes "annual_income" 3 4
    !! 0%nat = Some true /\
  (3 <= Z.of_nat
          (count_true
             (detect_suspicious_duplicates parse_digits incomes
                "annual_income" 3 4)))%Z.
Proof.
  assert (H : detect_suspicious_duplicates parse_digits incomes
                "annual_income" 3 4 !! 0%nat = Some true) by reflexivity.
  split; [exact H|].
  exact (detect_marked_count parse_digits incomes "annual_income" 3 4 0%nat
           H).
Defined.

(** X9 at the claims. *)
Lemma outlier_scores_unit_interval_claims :
  exists scores,
    isolation_forest_scores parse_digits sample_decision claims
      = Some scores /\
    length scores = length (rows claims) /\
    forall x, In x scores -> 0 <= x <= 1.
Proof.
  destruct (isolation_forest_scores parse_digits sample_decision claims)
    as [scores|] eqn:H; [|vm_compute in H; discriminate].
  exists scores. split; [reflexivity|].
  exact (outlier_scores_unit_interval parse_digits sample_decision claims
           scores H).
Defined.

(** X10 at the claims. *)
Lemma outlier_scores_extremes_claims :
  exists scores,
    isolation_forest_scores parse_digits sample_decision claims
      = Some scores /\
    ((forall x, In x scores -> x = 0) \/
     ((exists x, In x scores /\ x == 1) /\
      (exists x, In x scores /\ x == 0))).
Proof.
  destruct (isolation_forest_scores parse_digits sample_decision claims)
    as [scores|] eqn:H; [|vm_compute in H; discriminate].
  exists scores. split; [reflexivity|].
  exact (outlier_scores_extremes parse_digits sample_decision claims
           scores H).
Defined.

(** X11 at the table that has only a claim type. *)
Lemma outlier_scores_without_features_types :
  (forall c, In c NUMERIC_CANDIDATES -> c ∉ columns types_only) /\
  isolation_forest_scores parse_digits sample_decision types_only
    = Some [0; 0].
Proof.
  assert (H : forall c, In c NUMERIC_CANDIDATES -> c ∉ columns types_only).
  { intros c Hc Hin. simpl in Hin. apply list_elem_of_singleton in Hin.
    subst c. simpl in Hc. intuition discriminate. }
  split; [exact H|].
  exact (outlier_scores_without_features parse_digits sample_decision
           types_only H).
Defined.



(** X15 at the claims, weights 0.6 and 0.4: the fourth row. *)
Lemma risk_score_bounds_claims :
  exists out row,
    flag_anomalies parse_digits sqrt_approx sample_decision claims
      (6 # 10) (4 # 10) (3 # 2) (65 # 100) = Some out /\
    out !! 3%nat = Some row /\
    0 <= 6 # 10 /\ 0 <= 4 # 10 /\
    forall s, risk_score row = Some s -> 0 <= s <= (6 # 10) + (4 # 10).
Proof.
  destruct (flag_anomalies parse_digits sqrt_approx sample_decision claims
              (6 # 10) (4 # 10) (3 # 2) (65 # 100)) as [out|] eqn:Hout;
    [|vm_compute in Hout; discriminate].
  destruct (out !! 3%nat) as [row|] eqn:Hrow;
    [|vm_compute in Hout; injection Hout as <-; discriminate].
  assert (H1 : 0 <= 6 # 10) by (by vm_compute).
  assert (H2 : 0 <= 4 # 10) by (by vm_compute).
  exists out, row. split; [reflexivity|]. split; [exact Hrow|].
  split; [exact H1|]. split; [exact H2|].
  exact (proj2 (proj2 (risk_score_bounds parse_digits sqrt_approx
                         sample_decision claims (6 # 10) (4 # 10) (3 # 2)
                         (65 # 100) out 3%nat row Hout Hrow H1 H2))).
Defined.

(** X16 at the claims: thresholds (1.5, 0.65) against (2.5, 0.9). *)
Lemma thresholds_only_decide_flags_claims :
  exists out out' row row',
    flag_anomalies parse_digits sqrt_approx sample_decision claims
      (6 # 10) (4 # 10) (3 # 2) (65 # 100) = Some out /\
    flag_anomalies parse_digits sqrt_approx sample_decision claims
      (6 # 10) (4 # 10) (5 # 2) (9 # 10) = Some out' /\
    3 # 2 <= 5 # 2 /\ 65 # 100 <= 9 # 10 /\
    out !! 3%nat = Some row /\ out' !! 3%nat = Some row' /\
    risk_score row' = risk_score row /\
    (flagged row' = true -> flagged row = true).
Proof.
  destruct (flag_anomalies parse_digits sqrt_approx sample_decision claims
              (6 # 10) (4 # 10) (3 # 2) (65 # 100)) as [out|] eqn:Hout;
    [|vm_compute in Hout; discriminate].
  destruct (flag_anomalies parse_digits sqrt_approx sample_decision claims
              (6 # 10) (4 # 10) (5 # 2) (9 # 10)) as [out'|] eqn:Hout';
    [|vm_compute in Hout'; discriminate].
  destruct (out !! 3%nat) as [row|] eqn:Hrow;
    [|vm_compute in Hout; injection Hout as <-; discriminate].
  destruct (out' !! 3%nat) as [row'|] eqn:Hrow';
    [|vm_compute in Hout'; injection Hout' as <-; discriminate].
  assert (H1 : 3 # 2 <= 5 # 2) by (by vm_compute).
  assert (H2 : 65 # 100 <= 9 # 10) by (by vm_compute).
  exists out, out', row, row'.
  split; [reflexivity|]. split; [reflexivity|].
  split; [exact H1|]. split; [exact H2|].
  split; [exact Hrow|]. split; [exact Hrow'|].
  destruct (thresholds_only_decide_flags parse_digits sqrt_approx
              sample_decision claims (6 # 10) (4 # 10) (3 # 2) (65 # 100)
              (5 # 2) (9 # 10) out out' 3%nat row row' Hout Hout' H1 H2
              Hrow Hrow') as (_ & _ & _ & Hrisk & Hflag).
  exact (conj Hrisk Hflag).
Defined.

(** X18 at the raw header: "Total Claim Amount " becomes [claim_amount] in
    place. *)
Lemma coalesce_positions_header :
  map normalize_label raw_header !! 0%nat = Some "total_claim_amount"%string /\
  exists c', coalesce_columns raw_header !! 0%nat = Some c' /\
    (c' = "total_claim_amount"%string \/
     In ("total_claim_amount"%string, c') alias_map).
Proof.
  assert (H : map normalize_label raw_header !! 0%nat
              = Some "total_claim_amount"%string) by reflexivity.
  split; [exact H|].
  destruct (coalesce_positions raw_header 0%nat "total_claim_amount" H)
    as (c' & Hc' & Horigin & _).
  exists c'. by split.
Defined.

(** X21 at the ages 150, missing, 30, 40. *)
Lemma quality_summary_entry_ages :
  exists q,
    get_data_quality_summary parse_digits ages_with_missing !! "age"%string
      = Some q /\
    (missing_count q
     + length (dropna (float_series parse_digits ages_with_missing "age"))
     = length (rows ages_with_missing))%nat.
Proof.
  destruct (get_data_quality_summary parse_digits ages_with_missing
              !! "age"%string) as [q|] eqn:H;
    [|vm_compute in H; discriminate].
  exists q. split; [reflexivity|].
  destruct (quality_summary_entry parse_digits ages_with_missing "age" q H)
    as (_ & _ & Hcount & _).
  exact Hcount.
Defined.
